(** * voss-photo: the behaviour layer of the portfolio site (src/main.js)

  A shallow embedding of the seven initialisers of [main.js] and of the
  event handlers they register.  Each component owns a slice of the DOM;
  that slice is a record, a handler is a function on it, and a handler
  that can raise (a property access on [null]) returns an [outcome]
  carrying the state it leaves behind.

  Conventions
  - a [classList] is a [list string] (DOMTokenList: ordered, no repeats);
  - an element that [querySelector] may not find is an [option];
  - [undefined] attribute values ([dataset.x] of a missing attribute) are
    [None], and [===] on them is [js_strict_eq];
  - pixel coordinates of touches are integers ([Z]); the scroll offset is
    a rational ([Q]), since [window.scrollY] may be fractional and is only
    ever compared;
  - timers ([setTimeout], [requestAnimationFrame]) are queues of pending
    callbacks, fired by explicit events;
  - what the browser answers to a call of the script
    ([document.querySelector] on an href, [window.scrollY], a touch
    position) is an input of the handler that makes the call. *)

From Stdlib Require Import ZArith QArith List Ascii String Bool Lia Arith.
Import ListNotations.

Open Scope string_scope.
Open Scope list_scope.
Open Scope Z_scope.

(** ** JavaScript helpers *)

(** [String(b)], as [setAttribute] stringifies a boolean argument. *)
Definition js_string_of_bool (b : bool) : string :=
if b then "true" else "false".

(** [a === b] on values that are a string or [undefined]. *)
Definition js_strict_eq (a b : option string) : bool :=
match a, b with
| Some x, Some y => String.eqb x y
| None, None => true
| _, _ => false
end.

(** [arr[i]] for a numeric index: [undefined] outside the array. *)
Definition js_index {A : Type} (arr : list A) (i : Z) : option A :=
if i <? 0 then None else nth_error arr (Z.to_nat i).

(** [a % b] is the truncated remainder. *)
Definition js_rem (a b : Z) : Z := Z.rem a b.

(** ** classList *)

Module ClassList.

Definition t := list string.

Definition contains (c : string) (l : t) : bool :=
  existsb (String.eqb c) l.

Definition add (c : string) (l : t) : t :=
  if contains c l then l else l ++ [c].

Definition remove (c : string) (l : t) : t :=
  filter (fun d => negb (String.eqb c d)) l.

Definition toggle (c : string) (l : t) : t :=
  if contains c l then remove c l else add c l.

Lemma contains_app c l1 l2 :
  contains c (l1 ++ l2) = contains c l1 || contains c l2.
Proof. apply existsb_app. Qed.

Lemma contains_add c l : contains c (add c l) = true.
Proof.
  unfold add. destruct (contains c l) eqn:E; [exact E|].
  rewrite contains_app. simpl. rewrite String.eqb_refl.
  now rewrite orb_true_r.
Qed.

Lemma contains_remove c l : contains c (remove c l) = false.
Proof.
  unfold contains, remove. induction l as [|d l IH]; simpl; [reflexivity|].
  destruct (String.eqb c d) eqn:E; simpl; [exact IH|].
  now rewrite E, IH.
Qed.

Lemma contains_toggle c l : contains c (toggle c l) = negb (contains c l).
Proof.
  unfold toggle. destruct (contains c l) eqn:E; simpl.
  - apply contains_remove.
  - apply contains_add.
Qed.

Lemma contains_add_other c d l :
  String.eqb c d = false -> contains c (add d l) = contains c l.
Proof.
  intros H. unfold add. destruct (contains d l); [reflexivity|].
  rewrite contains_app. simpl. rewrite H. now rewrite !orb_false_r.
Qed.

Lemma contains_remove_other c d l :
  String.eqb c d = false -> contains c (remove d l) = contains c l.
Proof.
  intros H. unfold contains, remove.
  induction l as [|e l IH]; simpl; [reflexivity|].
  destruct (String.eqb d e) eqn:E; simpl.
  - apply String.eqb_eq in E. subst e. now rewrite H, IH.
  - now rewrite IH.
Qed.

End ClassList.

(** ** Lightbox gallery ([initLightbox], main.js 121-260) *)

Module Lightbox.

(** A [[data-lightbox]] element: its [dataset.lightbox] and the [alt] of
    its first [img] descendant, if it has one. *)
Record gallery_item := {
  data_lightbox : string;
  img_alt : option string
}.

(** The [.lightbox__image] element, as far as the script touches it. *)
Record image_el := {
  src : string;
  alt : string;
  opacity : string
}.

Inductive focus := FocusElsewhere | FocusClose | FocusItem (i : Z).

(** What [querySelector]/[querySelectorAll] find at initialisation. *)
Record document := {
  doc_items : list gallery_item;
  doc_lightbox : option ClassList.t;
  doc_image : option image_el;
  doc_close : bool;
  doc_prev : bool;
  doc_next : bool;
  doc_overflow : string
}.

(** The closure of [initLightbox] once past its guard, with the DOM it
    reads and writes.  [timers] holds the pending 200ms callbacks, each
    with the [imgSrc] and [imgAlt] it captured. *)
Record state := {
  images : list gallery_item;
  lightbox_classes : ClassList.t;
  lightboxImage : option image_el;
  lightboxClose : bool;
  lightboxPrev : bool;
  lightboxNext : bool;
  currentIndex : Z;
  body_overflow : string;
  focused : focus;
  touchStartX : Z;
  touchEndX : Z;
  timers : list (string * string)
}.

Definition set_currentIndex (i : Z) (s : state) : state :=
  {| images := images s; lightbox_classes := lightbox_classes s;
     lightboxImage := lightboxImage s; lightboxClose := lightboxClose s;
     lightboxPrev := lightboxPrev s; lightboxNext := lightboxNext s;
     currentIndex := i; body_overflow := body_overflow s;
     focused := focused s; touchStartX := touchStartX s;
     touchEndX := touchEndX s; timers := timers s |}.

Definition set_lightbox_classes (c : ClassList.t) (s : state) : state :=
  {| images := images s; lightbox_classes := c;
     lightboxImage := lightboxImage s; lightboxClose := lightboxClose s;
     lightboxPrev := lightboxPrev s; lightboxNext := lightboxNext s;
     currentIndex := currentIndex s; body_overflow := body_overflow s;
     focused := focused s; touchStartX := touchStartX s;
     touchEndX := touchEndX s; timers := timers s |}.

Definition set_lightboxImage (im : image_el) (s : state) : state :=
  {| images := images s; lightbox_classes := lightbox_classes s;
     lightboxImage := Some im; lightboxClose := lightboxClose s;
     lightboxPrev := lightboxPrev s; lightboxNext := lightboxNext s;
     currentIndex := currentIndex s; body_overflow := body_overflow s;
     focused := focused s; touchStartX := touchStartX s;
     touchEndX := touchEndX s; timers := timers s |}.

Definition set_body_overflow (o : string) (s : state) : state :=
  {| images := images s; lightbox_classes := lightbox_classes s;
     lightboxImage := lightboxImage s; lightboxClose := lightboxClose s;
     lightboxPrev := lightboxPrev s; lightboxNext := lightboxNext s;
     currentIndex := currentIndex s; body_overflow := o;
     focused := focused s; touchStartX := touchStartX s;
     touchEndX := touchEndX s; timers := timers s |}.

Definition set_focused (f : focus) (s : state) : state :=
  {| images := images s; lightbox_classes := lightbox_classes s;
     lightboxImage := lightboxImage s; lightboxClose := lightboxClose s;
     lightboxPrev := lightboxPrev s; lightboxNext := lightboxNext s;
     currentIndex := currentIndex s; body_overflow := body_overflow s;
     focused := f; touchStartX := touchStartX s;
     touchEndX := touchEndX s; timers := timers s |}.

Definition set_touchStartX (x : Z) (s : state) : state :=
  {| images := images s; lightbox_classes := lightbox_classes s;
     lightboxImage := lightboxImage s; lightboxClose := lightboxClose s;
     lightboxPrev := lightboxPrev s; lightboxNext := lightboxNext s;
     currentIndex := currentIndex s; body_overflow := body_overflow s;
     focused := focused s; touchStartX := x;
     touchEndX := touchEndX s; timers := timers s |}.

Definition set_touchEndX (x : Z) (s : state) : state :=
  {| images := images s; lightbox_classes := lightbox_classes s;
     lightboxImage := lightboxImage s; lightboxClose := lightboxClose s;
     lightboxPrev := lightboxPrev s; lightboxNext := lightboxNext s;
     currentIndex := currentIndex s; body_overflow := body_overflow s;
     focused := focused s; touchStartX := touchStartX s;
     touchEndX := x; timers := timers s |}.

Definition set_timers (t : list (string * string)) (s : state) : state :=
  {| images := images s; lightbox_classes := lightbox_classes s;
     lightboxImage := lightboxImage s; lightboxClose := lightboxClose s;
     lightboxPrev := lightboxPrev s; lightboxNext := lightboxNext s;
     currentIndex := currentIndex s; body_overflow := body_overflow s;
     focused := focused s; touchStartX := touchStartX s;
     touchEndX := touchEndX s; timers := t |}.

(** A handler either runs to its end or raises a [TypeError] (a property
    access on [null] or [undefined]); either way the writes it made so
    far stay. *)
Inductive outcome :=
| Done (s : state)
| TypeError (s : state).

Definition after (o : outcome) : state :=
  match o with Done s => s | TypeError s => s end.

Definition raised (o : outcome) : bool :=
  match o with Done _ => false | TypeError _ => true end.

Definition bind (o : outcome) (k : state -> outcome) : outcome :=
  match o with Done s => k s | TypeError s => TypeError s end.

Notation "o >>= k" := (bind o k) (at level 50, left associativity).

(** [el.querySelector('img')?.alt || 'Gallery image'] *)
Definition alt_or_default (a : option string) : string :=
  match a with
  | Some x => if String.eqb x "" then "Gallery image" else x
  | None => "Gallery image"
  end.

(** [lightboxImage.src = imgSrc; lightboxImage.alt = imgAlt;] *)
Definition show_image (imgSrc imgAlt : string) (s : state) : outcome :=
  match lightboxImage s with
  | None => TypeError s
  | Some im =>
      Done (set_lightboxImage
              {| src := imgSrc; alt := imgAlt; opacity := opacity im |} s)
  end.

(** [lightboxClose.focus()] *)
Definition focus_close (s : state) : outcome :=
  if lightboxClose s then Done (set_focused FocusClose s) else TypeError s.

Definition openLightbox (index : Z) (s0 : state) : outcome :=
  let s := set_currentIndex index s0 in
  match js_index (images s) (currentIndex s) with
  | None => TypeError s
  | Some item =>
      let imgSrc := data_lightbox item in
      let imgAlt := alt_or_default (img_alt item) in
      show_image imgSrc imgAlt s >>= fun s =>
      Done (set_lightbox_classes
              (ClassList.add "is-active" (lightbox_classes s)) s) >>= fun s =>
      Done (set_body_overflow "hidden" s) >>= fun s =>
      focus_close s
  end.

Definition closeLightbox (s : state) : outcome :=
  let s := set_lightbox_classes
             (ClassList.remove "is-active" (lightbox_classes s)) s in
  let s := set_body_overflow "" s in
  match js_index (images s) (currentIndex s) with
  | None => TypeError s
  | Some _ => Done (set_focused (FocusItem (currentIndex s)) s)
  end.

(** [lightboxImage.style.opacity = '0'] followed by [setTimeout(..., 200)] *)
Definition updateLightboxImage (s : state) : outcome :=
  match js_index (images s) (currentIndex s) with
  | None => TypeError s
  | Some item =>
      let imgSrc := data_lightbox item in
      let imgAlt := alt_or_default (img_alt item) in
      match lightboxImage s with
      | None => TypeError s
      | Some im =>
          let s := set_lightboxImage
                     {| src := src im; alt := alt im; opacity := "0" |} s in
          Done (set_timers (timers s ++ [(imgSrc, imgAlt)]) s)
      end
  end.

Definition images_length (s : state) : Z := Z.of_nat (List.length (images s)).

Definition nextImage (s : state) : outcome :=
  let s := set_currentIndex
             (js_rem (currentIndex s + 1) (images_length s)) s in
  updateLightboxImage s.

Definition prevImage (s : state) : outcome :=
  let s := set_currentIndex
             (js_rem (currentIndex s - 1 + images_length s)
                     (images_length s)) s in
  updateLightboxImage s.

(** The callback given to [setTimeout] in [updateLightboxImage]. *)
Definition timeout (s : state) : outcome :=
  match timers s with
  | [] => Done s
  | (imgSrc, imgAlt) :: rest =>
      let s := set_timers rest s in
      match lightboxImage s with
      | None => TypeError s
      | Some _ =>
          Done (set_lightboxImage
                  {| src := imgSrc; alt := imgAlt; opacity := "1" |} s)
      end
  end.

Definition swipeThreshold : Z := 50.

Definition handleSwipe (s : state) : outcome :=
  let diff := touchStartX s - touchEndX s in
  if Z.abs diff <? swipeThreshold then Done s
  else if diff >? 0 then nextImage s
  else prevImage s.

Definition is_active (s : state) : bool :=
  ClassList.contains "is-active" (lightbox_classes s).

(** The [keydown] listener on [document] (main.js 212-226). *)
Definition onKeydown (key : string) (s : state) : outcome :=
  if negb (is_active s) then Done s
  else if String.eqb key "Escape" then closeLightbox s
  else if String.eqb key "ArrowRight" then nextImage s
  else if String.eqb key "ArrowLeft" then prevImage s
  else Done s.

(** The events the listeners of [initLightbox] react to.  An event on an
    element that does not exist cannot be delivered; the handler of such
    an event is the identity. *)
Inductive event :=
| ItemClick (i : nat)
| ItemKeydown (i : nat) (key : string)
| CloseClick
| PrevClick
| NextClick
| Keydown (key : string)
| LightboxClick (target_is_lightbox : bool)
| TouchStart (screenX : Z)
| TouchEnd (screenX : Z)
| Timeout.

Definition handle (e : event) (s : state) : outcome :=
  match e with
  | ItemClick i =>
      if (i <? List.length (images s))%nat then openLightbox (Z.of_nat i) s
      else Done s
  | ItemKeydown i key =>
      if (i <? List.length (images s))%nat
      then if String.eqb key "Enter" || String.eqb key " "
           then openLightbox (Z.of_nat i) s
           else Done s
      else Done s
  | CloseClick => if lightboxClose s then closeLightbox s else Done s
  | PrevClick => if lightboxPrev s then prevImage s else Done s
  | NextClick => if lightboxNext s then nextImage s else Done s
  | Keydown key => onKeydown key s
  | LightboxClick target_is_lightbox =>
      if target_is_lightbox then closeLightbox s else Done s
  | TouchStart x => Done (set_touchStartX x s)
  | TouchEnd x => handleSwipe (set_touchEndX x s)
  | Timeout => timeout s
  end.

(** Events are handled one after the other; an exception ends its own
    handler only. *)
Fixpoint run (es : list event) (s : state) : state :=
  match es with
  | [] => s
  | e :: es => run es (after (handle e s))
  end.

(** [initLightbox]: [None] when the guard of line 129 returns early. *)
Definition initLightbox (d : document) : option state :=
  match doc_items d, doc_lightbox d with
  | [], _ => None
  | _ :: _, None => None
  | _ :: _, Some cls =>
      Some {| images := doc_items d; lightbox_classes := cls;
              lightboxImage := doc_image d; lightboxClose := doc_close d;
              lightboxPrev := doc_prev d; lightboxNext := doc_next d;
              currentIndex := 0; body_overflow := doc_overflow d;
              focused := FocusElsewhere; touchStartX := 0;
              touchEndX := 0; timers := [] |}
  end.

End Lightbox.

(** ** Properties of the lightbox *)

Module LightboxProps.
Import Lightbox.

(** *** What a navigation step leaves behind *)

Lemma updateLightboxImage_images s :
  images (after (updateLightboxImage s)) = images s.
Proof.
  unfold updateLightboxImage.
  destruct (js_index (images s) (currentIndex s)); [|reflexivity].
  destruct (lightboxImage s); reflexivity.
Qed.

Lemma updateLightboxImage_currentIndex s :
  currentIndex (after (updateLightboxImage s)) = currentIndex s.
Proof.
  unfold updateLightboxImage.
  destruct (js_index (images s) (currentIndex s)); [|reflexivity].
  destruct (lightboxImage s); reflexivity.
Qed.

Lemma updateLightboxImage_classes s :
  lightbox_classes (after (updateLightboxImage s)) = lightbox_classes s.
Proof.
  unfold updateLightboxImage.
  destruct (js_index (images s) (currentIndex s)); [|reflexivity].
  destruct (lightboxImage s); reflexivity.
Qed.

Lemma nextImage_images s : images (after (nextImage s)) = images s.
Proof. unfold nextImage. now rewrite updateLightboxImage_images. Qed.

Lemma prevImage_images s : images (after (prevImage s)) = images s.
Proof. unfold prevImage. now rewrite updateLightboxImage_images. Qed.

Lemma nextImage_length s :
  images_length (after (nextImage s)) = images_length s.
Proof. unfold images_length. now rewrite nextImage_images. Qed.

Lemma prevImage_length s :
  images_length (after (prevImage s)) = images_length s.
Proof. unfold images_length. now rewrite prevImage_images. Qed.

Lemma nextImage_currentIndex s :
  currentIndex (after (nextImage s))
  = js_rem (currentIndex s + 1) (images_length s).
Proof. unfold nextImage. now rewrite updateLightboxImage_currentIndex. Qed.

Lemma prevImage_currentIndex s :
  currentIndex (after (prevImage s))
  = js_rem (currentIndex s - 1 + images_length s) (images_length s).
Proof. unfold prevImage. now rewrite updateLightboxImage_currentIndex. Qed.

(** On an index inside the gallery the truncated remainder of JavaScript
    is the mathematical one. *)
Lemma next_rem_mod i n :
  0 <= i < n -> js_rem (i + 1) n = (i + 1) mod n.
Proof. intros H. unfold js_rem. apply Z.rem_mod_nonneg; lia. Qed.

Lemma prev_rem_mod i n :
  0 <= i < n -> js_rem (i - 1 + n) n = (i - 1 + n) mod n.
Proof. intros H. unfold js_rem. apply Z.rem_mod_nonneg; lia. Qed.

Lemma prev_after_next i n :
  0 <= i < n -> ((i + 1) mod n - 1 + n) mod n = i.
Proof.
  intros H.
  destruct (Z.eq_dec (i + 1) n) as [E|E].
  - rewrite E, Z.mod_same by lia.
    replace (0 - 1 + n) with (n - 1) by lia.
    rewrite Z.mod_small; lia.
  - rewrite (Z.mod_small (i + 1)) by lia.
    replace (i + 1 - 1 + n) with (i + 1 * n) by lia.
    rewrite Z.mod_add by lia. apply Z.mod_small; lia.
Qed.

Lemma next_after_prev i n :
  0 <= i < n -> ((i - 1 + n) mod n + 1) mod n = i.
Proof.
  intros H.
  destruct (Z.eq_dec i 0) as [E|E].
  - subst i. replace (0 - 1 + n) with (n - 1) by lia.
    rewrite (Z.mod_small (n - 1)) by lia.
    replace (n - 1 + 1) with n by lia. apply Z.mod_same; lia.
  - replace (i - 1 + n) with (i - 1 + 1 * n) by lia.
    rewrite Z.mod_add by lia.
    rewrite (Z.mod_small (i - 1)) by lia.
    replace (i - 1 + 1) with i by lia. apply Z.mod_small; lia.
Qed.

(** One [nextImage] per handler run, whatever the handler's outcome. *)
Definition next_step (s : state) : state := after (nextImage s).

Lemma iter_next_step k s :
  0 <= currentIndex s < images_length s ->
  images (Nat.iter k next_step s) = images s /\
  currentIndex (Nat.iter k next_step s)
  = (currentIndex s + Z.of_nat k) mod images_length s.
Proof.
  intros H. induction k as [|k [IHi IHc]].
  - simpl. split; [reflexivity|].
    rewrite Z.add_0_r. symmetry. apply Z.mod_small. exact H.
  - rewrite Nat.iter_succ. unfold next_step at 1 3.
    rewrite nextImage_images, nextImage_currentIndex.
    split; [exact IHi|].
    assert (L : images_length (Nat.iter k next_step s) = images_length s)
      by (unfold images_length; now rewrite IHi).
    rewrite L, IHc.
    assert (R : 0 <= (currentIndex s + Z.of_nat k) mod images_length s
                < images_length s) by (apply Z.mod_pos_bound; lia).
    rewrite next_rem_mod by exact R.
    rewrite Zplus_mod_idemp_l. f_equal. lia.
Qed.

(** C1.  In a gallery of N images with the cursor inside [[0, N)],
    [nextImage] moves the cursor to (i+1) mod N and [prevImage] to
    (i-1+N) mod N; both stay inside [[0, N)]; [prevImage] undoes
    [nextImage] and conversely; N calls of [nextImage] bring the cursor
    back to where it was. *)
Theorem lightbox_index_wraps (s : state) :
  0 <= currentIndex s < images_length s ->
  currentIndex (after (nextImage s))
    = (currentIndex s + 1) mod images_length s /\
  currentIndex (after (prevImage s))
    = (currentIndex s - 1 + images_length s) mod images_length s /\
  0 <= currentIndex (after (nextImage s)) < images_length s /\
  0 <= currentIndex (after (prevImage s)) < images_length s /\
  currentIndex (after (prevImage (after (nextImage s)))) = currentIndex s /\
  currentIndex (after (nextImage (after (prevImage s)))) = currentIndex s /\
  currentIndex (Nat.iter (List.length (images s)) next_step s)
    = currentIndex s.
Proof.
  intros H.
  assert (Hn : currentIndex (after (nextImage s))
               = (currentIndex s + 1) mod images_length s)
    by (rewrite nextImage_currentIndex; now apply next_rem_mod).
  assert (Hp : currentIndex (after (prevImage s))
               = (currentIndex s - 1 + images_length s) mod images_length s)
    by (rewrite prevImage_currentIndex; now apply prev_rem_mod).
  assert (Rn : 0 <= currentIndex (after (nextImage s)) < images_length s)
    by (rewrite Hn; apply Z.mod_pos_bound; lia).
  assert (Rp : 0 <= currentIndex (after (prevImage s)) < images_length s)
    by (rewrite Hp; apply Z.mod_pos_bound; lia).
  repeat split; try tauto.
  - rewrite prevImage_currentIndex, nextImage_length.
    rewrite prev_rem_mod by exact Rn.
    rewrite Hn. now apply prev_after_next.
  - rewrite nextImage_currentIndex, prevImage_length.
    rewrite next_rem_mod by exact Rp.
    rewrite Hp. now apply next_after_prev.
  - destruct (iter_next_step (List.length (images s)) s H) as [_ E].
    rewrite E. fold (images_length s).
    replace (currentIndex s + images_length s)
      with (currentIndex s + 1 * images_length s) by lia.
    rewrite Z.mod_add by lia. now apply Z.mod_small.
Qed.

(** *** Sample documents *)

Definition item (url alt_text : string) : gallery_item :=
  {| data_lightbox := url; img_alt := Some alt_text |}.

Definition blank_image : image_el :=
  {| src := ""; alt := ""; opacity := "" |}.

(** Five gallery items and the complete lightbox markup. *)
Definition portfolio : document :=
  {| doc_items := [item "1.jpg" "one"; item "2.jpg" "two";
                   item "3.jpg" "three"; item "4.jpg" "four";
                   item "5.jpg" "five"];
     doc_lightbox := Some ["lightbox"];
     doc_image := Some blank_image;
     doc_close := true; doc_prev := true; doc_next := true;
     doc_overflow := "" |}.

Definition portfolio_state : state :=
  {| images := doc_items portfolio; lightbox_classes := ["lightbox"];
     lightboxImage := Some blank_image; lightboxClose := true;
     lightboxPrev := true; lightboxNext := true;
     currentIndex := 0; body_overflow := "";
     focused := FocusElsewhere; touchStartX := 0; touchEndX := 0;
     timers := [] |}.

Example portfolio_initialised :
  initLightbox portfolio = Some portfolio_state.
Proof. reflexivity. Qed.

(** N = 5, start = 0: [prevImage] lands on index 4. *)
Lemma lightbox_index_wraps_witness :
  currentIndex (after (prevImage portfolio_state)) = 4.
Proof.
  assert (R : 0 <= currentIndex portfolio_state
              < images_length portfolio_state)
    by (unfold images_length; simpl; lia).
  destruct (lightbox_index_wraps portfolio_state R) as (_ & Hp & _).
  exact Hp.
Defined.

(** Item 2 of 5 opened, ArrowRight pressed twice: the cursor is on 4, and
    once the two fade timers have fired the lightbox shows that item. *)
Example open_then_two_arrows :
  currentIndex
    (run [ItemClick 2; Keydown "ArrowRight"; Keydown "ArrowRight"]
         portfolio_state) = 4 /\
  lightboxImage
    (run [ItemClick 2; Keydown "ArrowRight"; Keydown "ArrowRight";
          Timeout; Timeout] portfolio_state)
  = Some {| src := "5.jpg"; alt := "five"; opacity := "1" |}.
Proof. split; reflexivity. Qed.

(** *** Opening the lightbox with part of its markup missing *)

(** X19.  [openLightbox] on an existing item raises exactly when the image
    element or the close control was not found. *)
Lemma openLightbox_raises (i : nat) (s : state) :
  (i < List.length (images s))%nat ->
  raised (openLightbox (Z.of_nat i) s) = true
  <-> lightboxImage s = None \/ lightboxClose s = false.
Proof.
  intros Hi. unfold openLightbox, js_index. simpl.
  destruct (Z.ltb_spec (Z.of_nat i) 0) as [Hneg|_]; [lia|].
  rewrite Nat2Z.id.
  destruct (nth_error (images s) i) as [it|] eqn:E;
    [|apply nth_error_None in E; lia].
  unfold show_image, focus_close. simpl.
  destruct (lightboxImage s) as [im|]; simpl.
  - destruct (lightboxClose s); simpl; split; intros H;
      try discriminate; try reflexivity; try (now right).
    destruct H; discriminate.
  - split; [now left|reflexivity].
Qed.

(** One gallery item, the lightbox root and its image, but no
    [.lightbox__close]. *)
Definition no_close_doc : document :=
  {| doc_items := [item "a.jpg" "A"];
     doc_lightbox := Some ["lightbox"];
     doc_image := Some blank_image;
     doc_close := false; doc_prev := false; doc_next := false;
     doc_overflow := "" |}.

(** The same with the close control but no [.lightbox__image]. *)
Definition no_image_doc : document :=
  {| doc_items := [item "a.jpg" "A"];
     doc_lightbox := Some ["lightbox"];
     doc_image := None;
     doc_close := true; doc_prev := false; doc_next := false;
     doc_overflow := "" |}.

(** C2, at the failing input.  With the gallery items and the lightbox
    root present but the close control absent, [initLightbox] passes its
    guard and registers the item listeners; a click on the item then
    raises a [TypeError] at [lightboxClose.focus()], after the lightbox
    was made active and the page scroll locked. *)
Theorem open_without_close_control_raises :
  exists s,
    initLightbox no_close_doc = Some s /\
    raised (handle (ItemClick 0) s) = true /\
    is_active (after (handle (ItemClick 0) s)) = true /\
    body_overflow (after (handle (ItemClick 0) s)) = "hidden".
Proof. eexists. split; [reflexivity|]. repeat split. Qed.

(** Without the image element the exception comes earlier, at
    [lightboxImage.src = imgSrc]; the lightbox is not even shown. *)
Example open_without_image_raises :
  exists s,
    initLightbox no_image_doc = Some s /\
    raised (handle (ItemClick 0) s) = true /\
    is_active (after (handle (ItemClick 0) s)) = false.
Proof. eexists. split; [reflexivity|]. repeat split. Qed.

(** *** Touch navigation *)

(** A navigation step is never silent: it either raises or leaves one
    more pending fade timer. *)
Lemma updateLightboxImage_not_silent (s0 s : state) :
  timers s0 = timers s -> updateLightboxImage s0 <> Done s.
Proof.
  intros T. unfold updateLightboxImage.
  destruct (js_index (images s0) (currentIndex s0)); [|discriminate].
  destruct (lightboxImage s0); [|discriminate].
  intros E. injection E as E.
  apply (f_equal timers) in E. simpl in E. rewrite T in E.
  apply (f_equal (@List.length _)) in E.
  rewrite length_app in E. simpl in E. lia.
Qed.

Lemma nextImage_not_silent s : nextImage s <> Done s.
Proof. unfold nextImage. now apply updateLightboxImage_not_silent. Qed.

Lemma prevImage_not_silent s : prevImage s <> Done s.
Proof. unfold prevImage. now apply updateLightboxImage_not_silent. Qed.

Lemma handleSwipe_below s :
  Z.abs (touchStartX s - touchEndX s) < swipeThreshold ->
  handleSwipe s = Done s.
Proof.
  intros H. unfold handleSwipe.
  destruct (Z.ltb_spec (Z.abs (touchStartX s - touchEndX s)) swipeThreshold);
    [reflexivity|lia].
Qed.

Lemma handleSwipe_left s :
  swipeThreshold <= touchStartX s - touchEndX s ->
  handleSwipe s = nextImage s.
Proof.
  unfold swipeThreshold. intros H. unfold handleSwipe, swipeThreshold.
  destruct (Z.ltb_spec (Z.abs (touchStartX s - touchEndX s)) 50); [lia|].
  destruct (touchStartX s - touchEndX s >? 0) eqn:G; [reflexivity|].
  rewrite Z.gtb_ltb in G. apply Z.ltb_ge in G. lia.
Qed.

Lemma handleSwipe_right s :
  touchStartX s - touchEndX s <= - swipeThreshold ->
  handleSwipe s = prevImage s.
Proof.
  unfold swipeThreshold. intros H. unfold handleSwipe, swipeThreshold.
  destruct (Z.ltb_spec (Z.abs (touchStartX s - touchEndX s)) 50); [lia|].
  destruct (touchStartX s - touchEndX s >? 0) eqn:G; [|reflexivity].
  rewrite Z.gtb_ltb in G. apply Z.ltb_lt in G. lia.
Qed.

(** C8, as the code has it.  With [diff] the start position minus the end
    position, [handleSwipe] leaves the state alone exactly when
    [|diff| < 50]; a drag left by 50px or more is [nextImage], a drag
    right by 50px or more is [prevImage]. *)
Theorem handleSwipe_threshold (s : state) :
  (handleSwipe s = Done s
   <-> Z.abs (touchStartX s - touchEndX s) < swipeThreshold) /\
  (swipeThreshold <= touchStartX s - touchEndX s ->
   handleSwipe s = nextImage s) /\
  (touchStartX s - touchEndX s <= - swipeThreshold ->
   handleSwipe s = prevImage s).
Proof.
  split; [|split; [apply handleSwipe_left|apply handleSwipe_right]].
  split; [|apply handleSwipe_below].
  intros E.
  destruct (Z.lt_ge_cases (Z.abs (touchStartX s - touchEndX s))
                          swipeThreshold) as [L|G]; [exact L|exfalso].
  destruct (Z.le_gt_cases 0 (touchStartX s - touchEndX s)) as [P|N].
  - rewrite handleSwipe_left in E by lia.
    now apply nextImage_not_silent in E.
  - rewrite handleSwipe_right in E by lia.
    now apply prevImage_not_silent in E.
Qed.

(** A drag left by 73px on the sample gallery is [nextImage]. *)
Lemma handleSwipe_threshold_witness :
  handleSwipe (set_touchStartX 73 portfolio_state)
  = nextImage (set_touchStartX 73 portfolio_state).
Proof.
  apply (proj1 (proj2 (handleSwipe_threshold
                         (set_touchStartX 73 portfolio_state)))).
  unfold swipeThreshold. simpl. lia.
Defined.

(** C8 as stated fails at the boundary: a touch that starts at x = 50 and
    ends at x = 0 has a delta that does not exceed 50, and the cursor
    moves from 0 to 1. *)
Lemma swipe_of_exactly_50_navigates :
  ~ (50 < Z.abs (50 - 0)) /\
  currentIndex portfolio_state = 0 /\
  currentIndex (run [TouchStart 50; TouchEnd 0] portfolio_state) = 1.
Proof. split; [simpl; lia|]. split; reflexivity. Qed.

(** *** Touch and keyboard navigation while the lightbox is closed *)

Lemma next_moves i n : 1 < n -> 0 <= i < n -> (i + 1) mod n <> i.
Proof.
  intros Hn Hi. destruct (Z.eq_dec (i + 1) n) as [E|E].
  - rewrite E, Z.mod_same; lia.
  - rewrite Z.mod_small; lia.
Qed.

Lemma prev_moves i n : 1 < n -> 0 <= i < n -> (i - 1 + n) mod n <> i.
Proof.
  intros Hn Hi. destruct (Z.eq_dec i 0) as [E|E].
  - subst i. replace (0 - 1 + n) with (n - 1) by lia.
    rewrite Z.mod_small; lia.
  - replace (i - 1 + n) with (i - 1 + 1 * n) by lia.
    rewrite Z.mod_add by lia. rewrite Z.mod_small; lia.
Qed.

Lemma onKeydown_inactive key s : is_active s = false -> onKeydown key s = Done s.
Proof. intros H. unfold onKeydown. now rewrite H. Qed.

(** C10, as the code has it.  On a lightbox that does not carry
    [is-active], a [touchend] whose distance from the recorded
    [touchstart] is 50px or more runs [nextImage] (drag left) or
    [prevImage] (drag right) and sets the cursor to (i+1) mod N or
    (i-1+N) mod N, which differs from i as soon as the gallery has more
    than one image; every [keydown] is ignored in that state. *)
Theorem swipe_not_gated_on_active (s : state) (x : Z) :
  is_active s = false ->
  0 <= currentIndex s < images_length s ->
  swipeThreshold <= Z.abs (touchStartX s - x) ->
  (0 < touchStartX s - x ->
   handle (TouchEnd x) s = nextImage (set_touchEndX x s) /\
   currentIndex (after (handle (TouchEnd x) s))
     = (currentIndex s + 1) mod images_length s) /\
  (touchStartX s - x < 0 ->
   handle (TouchEnd x) s = prevImage (set_touchEndX x s) /\
   currentIndex (after (handle (TouchEnd x) s))
     = (currentIndex s - 1 + images_length s) mod images_length s) /\
  (1 < images_length s ->
   currentIndex (after (handle (TouchEnd x) s)) <> currentIndex s) /\
  (forall key, handle (Keydown key) s = Done s).
Proof.
  intros Ha Hi Hd. unfold swipeThreshold in Hd.
  assert (Nx : 0 < touchStartX s - x ->
               handle (TouchEnd x) s = nextImage (set_touchEndX x s) /\
               currentIndex (after (handle (TouchEnd x) s))
               = (currentIndex s + 1) mod images_length s).
  { intros P. simpl handle. rewrite handleSwipe_left by (unfold swipeThreshold; simpl; lia).
    split; [reflexivity|].
    rewrite nextImage_currentIndex. simpl currentIndex.
    change (images_length (set_touchEndX x s)) with (images_length s).
    now apply next_rem_mod. }
  assert (Pv : touchStartX s - x < 0 ->
               handle (TouchEnd x) s = prevImage (set_touchEndX x s) /\
               currentIndex (after (handle (TouchEnd x) s))
               = (currentIndex s - 1 + images_length s)
                   mod images_length s).
  { intros P. simpl handle. rewrite handleSwipe_right by (unfold swipeThreshold; simpl; lia).
    split; [reflexivity|].
    rewrite prevImage_currentIndex. simpl currentIndex.
    change (images_length (set_touchEndX x s)) with (images_length s).
    now apply prev_rem_mod. }
  repeat split; try (now apply Nx); try (now apply Pv).
  - intros Hn.
    destruct (Z.lt_trichotomy 0 (touchStartX s - x)) as [P|[Z0|P]].
    + destruct (Nx P) as [_ ->]. now apply next_moves.
    + rewrite <- Z0 in Hd. simpl in Hd. lia.
    + destruct (Pv P) as [_ ->]. now apply prev_moves.
  - intros key. simpl. now apply onKeydown_inactive.
Qed.

(** The sample gallery, closed, swiped left by 80px: the cursor moves
    from 0 to 1, and ArrowRight would have done nothing. *)
Lemma swipe_not_gated_on_active_witness :
  currentIndex (after (handle (TouchEnd (-80)) portfolio_state)) = 1 /\
  handle (Keydown "ArrowRight") portfolio_state = Done portfolio_state.
Proof.
  assert (A : is_active portfolio_state = false) by reflexivity.
  assert (R : 0 <= currentIndex portfolio_state
              < images_length portfolio_state)
    by (unfold images_length; simpl; lia).
  assert (D : swipeThreshold <= Z.abs (touchStartX portfolio_state - -80))
    by (unfold swipeThreshold; simpl; lia).
  destruct (swipe_not_gated_on_active portfolio_state (-80) A R D)
    as (Nx & _ & _ & K).
  split; [|apply K].
  assert (P : 0 < touchStartX portfolio_state - -80) by (simpl; lia).
  destruct (Nx P) as [_ E]. exact E.
Defined.

(** A gallery of a single image. *)
Definition single_state : state :=
  {| images := [item "a.jpg" "A"]; lightbox_classes := ["lightbox"];
     lightboxImage := Some blank_image; lightboxClose := true;
     lightboxPrev := true; lightboxNext := true;
     currentIndex := 0; body_overflow := "";
     focused := FocusElsewhere; touchStartX := 0; touchEndX := 0;
     timers := [] |}.

(** C10 as stated fails on a gallery of one image: the swipe of 200px
    runs [nextImage], and the cursor is what it was. *)
Lemma swipe_on_single_image_keeps_index :
  is_active single_state = false /\
  swipeThreshold <= Z.abs (200 - 0) /\
  handle (TouchEnd 0) (set_touchStartX 200 single_state)
    = nextImage (set_touchEndX 0 (set_touchStartX 200 single_state)) /\
  currentIndex (run [TouchStart 200; TouchEnd 0] single_state)
    = currentIndex single_state.
Proof.
  split; [reflexivity|]. split; [unfold swipeThreshold; simpl; lia|].
  split; reflexivity.
Qed.

End LightboxProps.

(** ** Navigation overlay ([initNavigation], main.js 47-111) *)

Module Navigation.

(** What the selectors of lines 48-51 find.  The hamburger and the
    overlay come with their class list and the ARIA attribute the script
    later writes; [.hamburger] and [.nav-overlay] are two elements. *)
Record document := {
  doc_hamburger : option (ClassList.t * option string);
  doc_overlay : option (ClassList.t * option string);
  doc_logo : option ClassList.t;
  doc_links : nat;
  doc_overflow : string
}.

Record state := {
  hamburger_classes : ClassList.t;
  aria_expanded : option string;
  overlay_classes : ClassList.t;
  aria_hidden : option string;
  logo : option ClassList.t;
  links : nat;
  body_overflow : string
}.

Definition toggleNav (s : state) : state :=
  let isActive := ClassList.contains "is-active" (hamburger_classes s) in
  {| hamburger_classes := ClassList.toggle "is-active" (hamburger_classes s);
     overlay_classes := ClassList.toggle "is-active" (overlay_classes s);
     logo := option_map (ClassList.toggle "is-light") (logo s);
     links := links s;
     body_overflow := if isActive then "" else "hidden";
     aria_expanded := Some (js_string_of_bool (negb isActive));
     aria_hidden := Some (js_string_of_bool isActive) |}.

Definition closeNav (s : state) : state :=
  {| hamburger_classes := ClassList.remove "is-active" (hamburger_classes s);
     overlay_classes := ClassList.remove "is-active" (overlay_classes s);
     logo := option_map (ClassList.remove "is-light") (logo s);
     links := links s;
     body_overflow := "";
     aria_expanded := Some "false";
     aria_hidden := Some "true" |}.

(** [initNavigation]: [None] when the guard of line 53 returns early. *)
Definition initNavigation (d : document) : option state :=
  match doc_hamburger d, doc_overlay d with
  | Some (hc, ha), Some (oc, oa) =>
      Some {| hamburger_classes := hc; aria_expanded := ha;
              overlay_classes := oc; aria_hidden := oa;
              logo := doc_logo d; links := doc_links d;
              body_overflow := doc_overflow d |}
  | _, _ => None
  end.

(** The two operations, and the listeners that call them. *)
Inductive op := Toggle | Close.

Definition apply_op (o : op) : state -> state :=
  match o with Toggle => toggleNav | Close => closeNav end.

Definition run_ops (os : list op) (s : state) : state :=
  fold_left (fun s o => apply_op o s) os s.

Inductive event :=
| HamburgerClick
| LinkClick (i : nat)
| Keydown (key : string)
| OverlayClick (target_is_overlay : bool).

Definition handle (e : event) (s : state) : state :=
  match e with
  | HamburgerClick => toggleNav s
  | LinkClick i => if (i <? links s)%nat then closeNav s else s
  | Keydown key =>
      if String.eqb key "Escape"
         && ClassList.contains "is-active" (overlay_classes s)
      then closeNav s else s
  | OverlayClick target_is_overlay =>
      if target_is_overlay then closeNav s else s
  end.

Definition run (es : list event) (s : state) : state :=
  fold_left (fun s e => handle e s) es s.

(** The active state, read where [toggleNav] reads it. *)
Definition active (s : state) : bool :=
  ClassList.contains "is-active" (hamburger_classes s).

(** Overlay class, scroll lock and ARIA attributes all say what the
    hamburger class says. *)
Definition consistent (s : state) : Prop :=
  ClassList.contains "is-active" (overlay_classes s) = active s /\
  body_overflow s = (if active s then "hidden" else "") /\
  aria_expanded s = Some (js_string_of_bool (active s)) /\
  aria_hidden s = Some (js_string_of_bool (negb (active s))).

(** The two class markers agree; nothing is said of the rest. *)
Definition classes_agree (s : state) : Prop :=
  ClassList.contains "is-active" (overlay_classes s) = active s.

Lemma consistent_classes_agree s : consistent s -> classes_agree s.
Proof. now intros [H _]. Qed.

Lemma toggleNav_active s : active (toggleNav s) = negb (active s).
Proof. apply ClassList.contains_toggle. Qed.

Lemma closeNav_active s : active (closeNav s) = false.
Proof. apply ClassList.contains_remove. Qed.

(** One toggle turns agreeing classes into a fully consistent state. *)
Lemma toggleNav_consistent s : classes_agree s -> consistent (toggleNav s).
Proof.
  unfold classes_agree, consistent. intros H.
  rewrite toggleNav_active. unfold active in *. simpl.
  rewrite ClassList.contains_toggle, H.
  destruct (ClassList.contains "is-active" (hamburger_classes s));
    repeat split; reflexivity.
Qed.

(** Closing needs no assumption at all. *)
Lemma closeNav_consistent s : consistent (closeNav s).
Proof.
  unfold consistent. rewrite closeNav_active. simpl.
  rewrite ClassList.contains_remove. repeat split; reflexivity.
Qed.

Lemma apply_op_consistent o s : consistent s -> consistent (apply_op o s).
Proof.
  intros H. destruct o; simpl.
  - apply toggleNav_consistent, consistent_classes_agree, H.
  - apply closeNav_consistent.
Qed.

Lemma handle_consistent e s : consistent s -> consistent (handle e s).
Proof.
  intros H. destruct e as [|i|key|b]; simpl.
  - apply toggleNav_consistent, consistent_classes_agree, H.
  - destruct (i <? links s)%nat; [apply closeNav_consistent|exact H].
  - destruct (_ && _); [apply closeNav_consistent|exact H].
  - destruct b; [apply closeNav_consistent|exact H].
Qed.

(** C4.  From a consistent state, every sequence of [toggleNav] and
    [closeNav] ends in a state where the overlay's active class equals
    the hamburger's, the body overflow is 'hidden' when active and ''
    when not, [aria-expanded] is the active state and [aria-hidden] its
    negation. *)
Theorem nav_state_consistent (os : list op) (s : state) :
  consistent s -> consistent (run_ops os s).
Proof.
  unfold run_ops. revert s.
  induction os as [|o os IH]; intros s H; simpl; [exact H|].
  apply IH, apply_op_consistent, H.
Qed.

(** X20.  The same for the listeners: hamburger, links, Escape, background. *)
Lemma nav_events_consistent (es : list event) (s : state) :
  consistent s -> consistent (run es s).
Proof.
  unfold run. revert s.
  induction es as [|e es IH]; intros s H; simpl; [exact H|].
  apply IH, handle_consistent, H.
Qed.

(** The markup as shipped: nothing active, scroll unlocked, ARIA set. *)
Definition closed_markup : document :=
  {| doc_hamburger := Some (["hamburger"], Some "false");
     doc_overlay := Some (["nav-overlay"], Some "true");
     doc_logo := Some ["logo"];
     doc_links := 4%nat;
     doc_overflow := "" |}.

Definition closed_state : state :=
  {| hamburger_classes := ["hamburger"]; aria_expanded := Some "false";
     overlay_classes := ["nav-overlay"]; aria_hidden := Some "true";
     logo := Some ["logo"]; links := 4%nat; body_overflow := "" |}.

Example closed_markup_initialised :
  initNavigation closed_markup = Some closed_state.
Proof. reflexivity. Qed.

Lemma closed_state_consistent : consistent closed_state.
Proof. repeat split; reflexivity. Qed.

Lemma nav_state_consistent_witness :
  consistent (run_ops [Toggle; Toggle; Close; Toggle] closed_state) /\
  active (run_ops [Toggle; Toggle; Close; Toggle] closed_state) = true.
Proof.
  split; [|reflexivity].
  apply (nav_state_consistent [Toggle; Toggle; Close; Toggle] closed_state).
  repeat split; reflexivity.
Defined.

End Navigation.

(** ** Gallery filters ([initGalleryFilters], main.js 270-301) *)

Module Filters.

(** A [.gallery__filter-btn]: [dataset.filter] ([None] when the attribute
    is missing) and its class list. *)
Record button := {
  data_filter : option string;
  button_classes : ClassList.t
}.

(** A [.gallery__item]: [dataset.category], [style.display] and its
    class list. *)
Record item := {
  data_category : option string;
  display : string;
  item_classes : ClassList.t
}.

(** [timers] holds the pending 50ms callbacks, each with the index of
    the item it captured. *)
Record state := {
  filterButtons : list button;
  galleryItems : list item;
  timers : list nat
}.

(** [filter === 'all' || category === filter] *)
Definition shown (flt category : option string) : bool :=
  js_strict_eq flt (Some "all") || js_strict_eq category flt.

Definition clear_active (b : button) : button :=
  {| data_filter := data_filter b;
     button_classes := ClassList.remove "is-active" (button_classes b) |}.

Definition mark_active (b : button) : button :=
  {| data_filter := data_filter b;
     button_classes := ClassList.add "is-active" (button_classes b) |}.

Fixpoint update_at {A : Type} (k : nat) (f : A -> A) (l : list A) {struct l}
  : list A :=
  match l, k with
  | [], _ => []
  | x :: l, O => f x :: l
  | x :: l, S k => x :: update_at k f l
  end.

(** The body of the inner [galleryItems.forEach], without its timer. *)
Definition filter_item (flt : option string) (it : item) : item :=
  if shown flt (data_category it)
  then {| data_category := data_category it; display := "";
          item_classes := item_classes it |}
  else {| data_category := data_category it; display := "none";
          item_classes := ClassList.remove "is-visible" (item_classes it) |}.

(** The timers the same loop sets, in the order of the items. *)
Fixpoint reveal_timers (flt : option string) (i : nat) (its : list item)
  : list nat :=
  match its with
  | [] => []
  | it :: its =>
      if shown flt (data_category it)
      then i :: reveal_timers flt (S i) its
      else reveal_timers flt (S i) its
  end.

(** The click listener of the button at position [k]. *)
Definition click (k : nat) (s : state) : state :=
  match nth_error (filterButtons s) k with
  | None => s
  | Some b =>
      let flt := data_filter b in
      {| filterButtons :=
           update_at k mark_active (map clear_active (filterButtons s));
         galleryItems := map (filter_item flt) (galleryItems s);
         timers := timers s ++ reveal_timers flt 0 (galleryItems s) |}
  end.

Definition reveal (it : item) : item :=
  {| data_category := data_category it; display := display it;
     item_classes := ClassList.add "is-visible" (item_classes it) |}.

(** The oldest pending 50ms callback fires. *)
Definition timeout (s : state) : state :=
  match timers s with
  | [] => s
  | i :: rest =>
      {| filterButtons := filterButtons s;
         galleryItems := update_at i reveal (galleryItems s);
         timers := rest |}
  end.

Inductive event := Click (k : nat) | Timeout.

Definition handle (e : event) (s : state) : state :=
  match e with Click k => click k s | Timeout => timeout s end.

Fixpoint run (es : list event) (s : state) : state :=
  match es with
  | [] => s
  | e :: es => run es (handle e s)
  end.

(** [initGalleryFilters]: [None] when the guard of line 274 returns. *)
Definition initGalleryFilters (bs : list button) (its : list item)
  : option state :=
  match bs, its with
  | _ :: _, _ :: _ =>
      Some {| filterButtons := bs; galleryItems := its; timers := [] |}
  | _, _ => None
  end.

(** *** What a click decides *)

(** Which controls carry [is-active], and each item's [style.display]. *)
Definition active_flags (s : state) : list bool :=
  map (fun b => ClassList.contains "is-active" (button_classes b))
      (filterButtons s).

Definition displays (s : state) : list string :=
  map display (galleryItems s).

(** The position of the last click of a history, if it has one. *)
Fixpoint last_click (es : list event) : option nat :=
  match es with
  | [] => None
  | e :: es =>
      match last_click es with
      | Some k => Some k
      | None => match e with Click k => Some k | Timeout => None end
      end
  end.

(** [dataset.filter] of the control at position [k]. *)
Definition filter_of (k : nat) (s : state) : option string :=
  match nth_error (filterButtons s) k with
  | Some b => data_filter b
  | None => None
  end.

(** The view as the specification words it: control [k] alone is active,
    and an item is displayed iff [filter === 'all' || category === filter]
    for the filter of control [k]. *)
Definition expected_flags (k : nat) (s : state) : list bool :=
  map (Nat.eqb k) (seq 0 (List.length (filterButtons s))).

Definition expected_displays (k : nat) (s : state) : list string :=
  map (fun it => if shown (filter_of k s) (data_category it)
                 then "" else "none")
      (galleryItems s).

(** The part of the state no handler writes. *)
Definition markup (s : state) : list (option string) * list (option string) :=
  (map data_filter (filterButtons s), map data_category (galleryItems s)).

End Filters.

Module FiltersProps.
Import Filters.

Lemma map_update_at {A B : Type} (g : A -> B) (f : A -> A) k l :
  (forall x, g (f x) = g x) -> map g (update_at k f l) = map g l.
Proof.
  intros H. revert k. induction l as [|x l IH]; intros k; [reflexivity|].
  destruct k; simpl; [now rewrite H|now rewrite IH].
Qed.

Lemma nth_error_Some_lt {A : Type} (l : list A) k x :
  nth_error l k = Some x -> (k < List.length l)%nat.
Proof. intros H. apply nth_error_Some. congruence. Qed.

(** No handler writes [dataset.filter] or [dataset.category]. *)
Lemma click_markup k s : markup (click k s) = markup s.
Proof.
  unfold click, markup.
  destruct (nth_error (filterButtons s) k); [|reflexivity]. simpl.
  rewrite map_update_at by reflexivity.
  rewrite !map_map. f_equal.
  apply map_ext. intros it. unfold filter_item.
  now destruct (shown _ _).
Qed.

Lemma timeout_markup s : markup (timeout s) = markup s.
Proof.
  unfold timeout, markup. destruct (timers s); [reflexivity|]. simpl.
  now rewrite map_update_at by reflexivity.
Qed.

Lemma handle_markup e s : markup (handle e s) = markup s.
Proof. destruct e; [apply click_markup|apply timeout_markup]. Qed.

Lemma timeout_flags s : active_flags (timeout s) = active_flags s.
Proof. unfold timeout, active_flags. now destruct (timers s). Qed.

Lemma timeout_displays s : displays (timeout s) = displays s.
Proof.
  unfold timeout, displays. destruct (timers s); [reflexivity|]. simpl.
  now rewrite map_update_at by reflexivity.
Qed.

(** The expected view is a function of the markup alone. *)
Lemma expected_flags_markup k s s0 :
  markup s = markup s0 -> expected_flags k s = expected_flags k s0.
Proof.
  unfold markup, expected_flags. intros H. injection H as Hb _.
  apply (f_equal (@List.length _)) in Hb. rewrite !length_map in Hb.
  now rewrite Hb.
Qed.

Lemma filter_of_markup k s s0 :
  markup s = markup s0 -> filter_of k s = filter_of k s0.
Proof.
  unfold markup, filter_of. intros H. injection H as Hb _.
  apply (f_equal (fun l => nth_error l k)) in Hb.
  rewrite !nth_error_map in Hb.
  destruct (nth_error (filterButtons s) k),
           (nth_error (filterButtons s0) k); simpl in Hb; congruence.
Qed.

Lemma expected_displays_markup k s s0 :
  markup s = markup s0 -> expected_displays k s = expected_displays k s0.
Proof.
  intros H. unfold expected_displays.
  rewrite (filter_of_markup k s s0 H).
  unfold markup in H. injection H as _ Hi.
  change (map (fun it => if shown (filter_of k s0) (data_category it)
                         then "" else "none") (galleryItems s))
    with (map (fun it => (fun c => if shown (filter_of k s0) c
                                   then "" else "none") (data_category it))
              (galleryItems s)).
  rewrite <- (map_map data_category
                (fun c => if shown (filter_of k s0) c then "" else "none")).
  rewrite Hi. now rewrite map_map.
Qed.

(** *** One click *)

Lemma cleared_flags bs :
  map (fun b => ClassList.contains "is-active" (button_classes b))
      (map clear_active bs)
  = map (fun _ => false) bs.
Proof.
  rewrite map_map. apply map_ext. intros b. simpl.
  apply ClassList.contains_remove.
Qed.

Lemma eqb_shift k n :
  map (Nat.eqb (S k)) (seq 1 n) = map (Nat.eqb k) (seq 0 n).
Proof. rewrite <- seq_shift, map_map. reflexivity. Qed.

Lemma eqb_zero_shift n :
  map (Nat.eqb 0) (seq 1 n) = map (fun _ => false) (seq 0 n).
Proof. rewrite <- seq_shift, map_map. reflexivity. Qed.

Lemma const_map_seq {A : Type} (l : list A) :
  map (fun _ => false) l = map (fun _ => false) (seq 0 (List.length l)).
Proof.
  generalize 0%nat. induction l as [|x l IH]; intros n; [reflexivity|].
  simpl. now rewrite (IH (S n)).
Qed.

Lemma marked_flags bs k :
  (k < List.length bs)%nat ->
  map (fun b => ClassList.contains "is-active" (button_classes b))
      (update_at k mark_active (map clear_active bs))
  = map (Nat.eqb k) (seq 0 (List.length bs)).
Proof.
  revert k. induction bs as [|b bs IH]; intros k Hk; simpl in Hk; [lia|].
  destruct k as [|k].
  - cbn [map update_at List.length seq mark_active button_classes clear_active].
    rewrite ClassList.contains_add. rewrite cleared_flags.
    rewrite eqb_zero_shift. simpl. f_equal. apply const_map_seq.
  - cbn [map update_at List.length seq].
    rewrite IH by lia. rewrite eqb_shift. f_equal.
    cbn [clear_active button_classes]. apply ClassList.contains_remove.
Qed.

Lemma click_flags k s :
  (k < List.length (filterButtons s))%nat ->
  active_flags (click k s) = expected_flags k s.
Proof.
  intros Hk. unfold click.
  destruct (nth_error (filterButtons s) k) eqn:E;
    [|apply nth_error_None in E; lia].
  unfold active_flags, expected_flags. simpl. now apply marked_flags.
Qed.

Lemma click_displays k s :
  (k < List.length (filterButtons s))%nat ->
  displays (click k s) = expected_displays k s.
Proof.
  intros Hk. unfold click, expected_displays, filter_of.
  destruct (nth_error (filterButtons s) k) eqn:E;
    [|apply nth_error_None in E; lia].
  unfold displays. simpl. rewrite map_map. apply map_ext.
  intros it. unfold filter_item. now destruct (shown _ _).
Qed.

(** Exactly one flag is set in the expected view. *)
Lemma one_flag k start n :
  count_occ Bool.bool_dec (map (Nat.eqb k) (seq start n)) true
  = if ((start <=? k) && (k <? start + n))%nat then 1%nat else 0%nat.
Proof.
  revert start. induction n as [|n IH]; intros start.
  - simpl. destruct (start <=? k)%nat eqn:A; simpl; [|reflexivity].
    destruct (Nat.ltb_spec k (start + 0)); [|reflexivity].
    apply Nat.leb_le in A. lia.
  - cbn [seq map]. destruct (Nat.eqb_spec k start) as [->|D].
    + rewrite count_occ_cons_eq by reflexivity. rewrite IH.
      rewrite Nat.leb_refl.
      destruct (Nat.leb_spec (S start) start); [lia|]. simpl.
      destruct (Nat.ltb_spec start (start + S n)); [reflexivity|lia].
    + rewrite count_occ_cons_neq by discriminate. rewrite IH.
      replace (start + S n)%nat with (S start + n)%nat by lia.
      destruct (Nat.leb_spec (S start) k), (Nat.leb_spec start k);
        try lia; reflexivity.
Qed.

Lemma expected_flags_one k s :
  (k < List.length (filterButtons s))%nat ->
  count_occ Bool.bool_dec (expected_flags k s) true = 1%nat.
Proof.
  intros Hk. unfold expected_flags. rewrite one_flag. simpl.
  destruct (Nat.ltb_spec k (List.length (filterButtons s))); [reflexivity|lia].
Qed.

(** *** Histories *)

Lemma run_markup es s : markup (run es s) = markup s.
Proof.
  revert s. induction es as [|e es IH]; intros s; [reflexivity|].
  simpl. now rewrite IH, handle_markup.
Qed.

Lemma markup_length s s0 :
  markup s = markup s0 ->
  List.length (filterButtons s) = List.length (filterButtons s0).
Proof.
  unfold markup. intros H. injection H as Hb _.
  apply (f_equal (@List.length _)) in Hb. now rewrite !length_map in Hb.
Qed.

(** The view after a history is the expected view of its last click, and
    the view before it when nothing was clicked. *)
Lemma run_view es : forall s s0,
  markup s = markup s0 ->
  match last_click es with
  | Some k =>
      (k < List.length (filterButtons s0))%nat ->
      active_flags (run es s) = expected_flags k s0 /\
      displays (run es s) = expected_displays k s0
  | None =>
      active_flags (run es s) = active_flags s /\
      displays (run es s) = displays s
  end.
Proof.
  induction es as [|e es IH]; intros s s0 M; simpl; [now split|].
  assert (M' : markup (handle e s) = markup s0)
    by now rewrite handle_markup.
  specialize (IH (handle e s) s0 M').
  destruct (last_click es) as [k|]; [exact IH|].
  destruct IH as [IHf IHd]. destruct e as [k|]; simpl in *.
  - intros Hk. rewrite IHf, IHd.
    assert (Hk' : (k < List.length (filterButtons s))%nat)
      by now rewrite (markup_length s s0 M).
    rewrite click_flags, click_displays by exact Hk'.
    split; [now apply expected_flags_markup
           |now apply expected_displays_markup].
  - rewrite IHf, IHd. split; [apply timeout_flags|apply timeout_displays].
Qed.

Lemma last_click_snoc es k : last_click (es ++ [Click k]) = Some k.
Proof. induction es as [|e es IH]; simpl; [reflexivity|now rewrite IH]. Qed.

(** A history made of clicks only ends with its last click. *)
Lemma last_click_clicks ks k :
  last_click (map Click (ks ++ [k])) = Some k.
Proof. rewrite map_app. apply last_click_snoc. Qed.

Lemma run_app es1 es2 s : run (es1 ++ es2) s = run es2 (run es1 s).
Proof.
  revert s. induction es1 as [|e es1 IH]; intros s; [reflexivity|].
  simpl. apply IH.
Qed.

(** Active markers and displays.  After a history of filter clicks (and of
    reveal timers firing in
    between) whose last click was on control [k]: control [j] carries
    [is-active] exactly when [j = k], so exactly one control does; every
    item's [style.display] is '' when
    [filter === 'all' || category === filter] for the filter of control
    [k], and 'none' otherwise; active markers and displays are those a
    single click on [k] gives, and clicking [k] again changes neither. *)
Theorem filter_last_click_decides (es : list event) (s : state) (k : nat) :
  last_click es = Some k ->
  (k < List.length (filterButtons s))%nat ->
  active_flags (run es s) = expected_flags k s /\
  count_occ Bool.bool_dec (active_flags (run es s)) true = 1%nat /\
  displays (run es s) = expected_displays k s /\
  active_flags (run es s) = active_flags (click k s) /\
  displays (run es s) = displays (click k s) /\
  active_flags (click k (run es s)) = active_flags (run es s) /\
  displays (click k (run es s)) = displays (run es s).
Proof.
  intros L Hk.
  pose proof (run_view es s s eq_refl) as V. rewrite L in V.
  destruct (V Hk) as [Vf Vd].
  pose proof (run_view (es ++ [Click k]) s s eq_refl) as W.
  rewrite last_click_snoc in W. destruct (W Hk) as [Wf Wd].
  rewrite run_app in Wf, Wd. simpl in Wf, Wd.
  rewrite Vf, Vd.
  repeat split; try reflexivity.
  - now apply expected_flags_one.
  - symmetry. now apply click_flags.
  - symmetry. now apply click_displays.
  - exact Wf.
  - exact Wd.
Qed.

(** *** A sample gallery *)

Definition btn (f : string) : button :=
  {| data_filter := Some f; button_classes := ["gallery__filter-btn"] |}.

Definition tile (c : string) : item :=
  {| data_category := Some c; display := "";
     item_classes := ["gallery__item"] |}.

Definition gallery : state :=
  {| filterButtons := [btn "all"; btn "portrait"; btn "landscape"];
     galleryItems := [tile "portrait"; tile "landscape"; tile "portrait"];
     timers := [] |}.

Example gallery_initialised :
  initGalleryFilters (filterButtons gallery) (galleryItems gallery)
  = Some gallery.
Proof. reflexivity. Qed.

Lemma filter_last_click_decides_witness :
  active_flags (run [Click 2; Click 0; Timeout; Click 1] gallery)
    = [false; true; false] /\
  displays (run [Click 2; Click 0; Timeout; Click 1] gallery)
    = [""; "none"; ""].
Proof.
  assert (L : last_click [Click 2; Click 0; Timeout; Click 1] = Some 1%nat)
    by reflexivity.
  assert (K : (1 < List.length (filterButtons gallery))%nat)
    by (simpl; lia).
  destruct (filter_last_click_decides _ gallery 1 L K)
    as (F & _ & D & _).
  split; [exact F|exact D].
Defined.

(** The [is-visible] marker is not part of that view: nothing cancels a
    pending reveal timer, so after 'all' then 'portrait' in quick
    succession the hidden landscape item gets the marker back, which a
    lone click on 'portrait' leaves removed. *)
Example stale_reveal_timer :
  map item_classes
      (galleryItems
         (run [Click 0; Click 1; Timeout; Timeout; Timeout; Timeout; Timeout]
              gallery))
    = [["gallery__item"; "is-visible"];
       ["gallery__item"; "is-visible"];
       ["gallery__item"; "is-visible"]] /\
  map item_classes
      (galleryItems (run [Click 1; Timeout; Timeout] gallery))
    = [["gallery__item"; "is-visible"];
       ["gallery__item"];
       ["gallery__item"; "is-visible"]].
Proof. split; reflexivity. Qed.

End FiltersProps.

(** ** Smooth scroll for anchor links ([initSmoothScroll], main.js 311-331) *)

Module SmoothScroll.

(** What [document.querySelector(targetId)] does when the listener calls
    it.  The selector engine is the browser's, not this script's: the
    href is parsed as a CSS selector, so the call may raise a
    [SyntaxError], return [null], or return the first element the
    selector matches.  The listener is embedded as a function of that
    answer, as the other handlers are of the values they read from the
    page. *)
Inductive query :=
| Invalid
| Null
| Found (el : nat).

(** What a click listener does to the event and to the page. *)
Inductive effect :=
| PreventDefault
| ScrollIntoView (target : nat) (behavior block : string)
| PushState (url : string).

(** The listener returns, or the exception of [querySelector] leaves it;
    either way with the effects it had so far. *)
Inductive outcome :=
| Returned (effs : list effect)
| SyntaxError (effs : list effect).

Definition effects (o : outcome) : list effect :=
  match o with Returned effs => effs | SyntaxError effs => effs end.

Definition raised (o : outcome) : bool :=
  match o with Returned _ => false | SyntaxError _ => true end.

(** The listener of line 315, on the link whose [href] is [targetId],
    when [document.querySelector(targetId)] answers [answer]. *)
Definition onClick (targetId : string) (answer : query) : outcome :=
  match answer with
  | Invalid => SyntaxError []
  | Null => Returned []
  | Found targetElement =>
      Returned [PreventDefault;
                ScrollIntoView targetElement "smooth" "start";
                PushState targetId]
  end.

(** [a[href^="#"]:not([href="#"])] *)
Definition is_hash_link (href : string) : bool :=
  String.prefix "#" href && negb (String.eqb href "#").

(** [initSmoothScroll]: the links that get the listener. *)
Definition initSmoothScroll (hrefs : list string) : list string :=
  filter is_hash_link hrefs.

(** A click on any link of the page: only the selected ones listen. *)
Definition click (href : string) (answer : query) : outcome :=
  if is_hash_link href then onClick href answer else Returned [].

Definition default_prevented (o : outcome) : bool :=
  existsb (fun e => match e with PreventDefault => true | _ => false end)
          (effects o).


(** C3, as the code has it.  A click on a same-page hash link whose hash
    finds no element has no effect at all: the default navigation is not
    cancelled, nothing is scrolled and the history is not touched. *)
Theorem click_unmatched_hash (href : string) :
  is_hash_link href = true ->
  click href Null = Returned [] /\
  default_prevented (click href Null) = false.
Proof. intros L. unfold click, onClick. rewrite L. now split. Qed.


(** No element of that page has the id [pricing]: the query for
    [#pricing] answers [null]. *)
Lemma click_unmatched_hash_witness :
  click "#pricing" Null = Returned [] /\
  default_prevented (click "#pricing" Null) = false.
Proof. apply click_unmatched_hash; reflexivity. Defined.

(** C3 as stated fails: [#pricing] is a same-page hash link, the query
    finds no element, and the click does not cancel the default
    navigation. *)
Lemma unmatched_hash_keeps_default :
  is_hash_link "#pricing" = true /\
  ~ In PreventDefault (effects (click "#pricing" Null)).
Proof. split; [reflexivity|]. intros []. Qed.

End SmoothScroll.

(** ** Header scroll behaviour ([initHeaderScroll], main.js 341-371) *)

Module HeaderScroll.

(** The header's class list, the [ticking] flag and the number of
    callbacks handed to [requestAnimationFrame] and not yet run. *)
Record state := {
  header_classes : ClassList.t;
  ticking : bool;
  frames : nat
}.

Definition scrollThreshold : Q := 50%Q.

(** [a > b] on numbers. *)
Definition js_gt (a b : Q) : bool := negb (Qle_bool a b).

Definition updateHeader (scrollY : Q) (s : state) : state :=
  if js_gt scrollY scrollThreshold
  then {| header_classes := ClassList.add "is-scrolled" (header_classes s);
          ticking := ticking s; frames := frames s |}
  else {| header_classes := ClassList.remove "is-scrolled" (header_classes s);
          ticking := ticking s; frames := frames s |}.

(** [Scroll]: the scroll listener runs.  [Frame y]: the browser runs one
    queued animation-frame callback while [window.scrollY] is [y]. *)
Inductive event := Scroll | Frame (scrollY : Q).

Definition handle (e : event) (s : state) : state :=
  match e with
  | Scroll =>
      if ticking s then s
      else {| header_classes := header_classes s; ticking := true;
              frames := S (frames s) |}
  | Frame y =>
      match frames s with
      | O => s
      | S n =>
          let s := updateHeader y s in
          {| header_classes := header_classes s; ticking := false;
             frames := n |}
      end
  end.

(** [initHeaderScroll]: [None] without a [.header]; otherwise the state
    after the eager [updateHeader()] of line 370. *)
Definition initHeaderScroll (header : option ClassList.t) (scrollY : Q)
  : option state :=
  match header with
  | None => None
  | Some c =>
      Some (updateHeader scrollY
              {| header_classes := c; ticking := false; frames := 0 |})
  end.

Definition is_scrolled (s : state) : bool :=
  ClassList.contains "is-scrolled" (header_classes s).

Lemma js_gt_spec a b : js_gt a b = true <-> (b < a)%Q.
Proof.
  unfold js_gt. rewrite negb_true_iff, <- not_true_iff_false, Qle_bool_iff.
  split; [apply Qnot_le_lt|apply Qlt_not_le].
Qed.

Lemma updateHeader_is_scrolled y s :
  is_scrolled (updateHeader y s) = js_gt y scrollThreshold.
Proof.
  unfold updateHeader, is_scrolled.
  destruct (js_gt y scrollThreshold); simpl.
  - apply ClassList.contains_add.
  - apply ClassList.contains_remove.
Qed.

(** C7.  After [updateHeader], and after initialisation, the header
    carries [is-scrolled] if and only if [scrollY > 50], whatever it
    carried before; at 49 and at 50 the marker is absent, at 51 it is
    present. *)
Theorem header_marker_threshold :
  (forall y s, is_scrolled (updateHeader y s) = true <-> (50 < y)%Q) /\
  (forall c y, exists s,
      initHeaderScroll (Some c) y = Some s /\
      (is_scrolled s = true <-> (50 < y)%Q)) /\
  (forall s, is_scrolled (updateHeader 49%Q s) = false /\
             is_scrolled (updateHeader 50%Q s) = false /\
             is_scrolled (updateHeader 51%Q s) = true).
Proof.
  assert (U : forall y s, is_scrolled (updateHeader y s) = true
                          <-> (50 < y)%Q).
  { intros y s. rewrite updateHeader_is_scrolled. apply js_gt_spec. }
  split; [exact U|]. split.
  - intros c y. eexists. split; [reflexivity|]. apply U.
  - intros s. rewrite !updateHeader_is_scrolled. repeat split.
Qed.

(** The frame callback applies the same rule. *)
Lemma frame_is_scrolled y s :
  frames s <> 0%nat ->
  (is_scrolled (handle (Frame y) s) = true <-> (50 < y)%Q).
Proof.
  intros F. simpl. destruct (frames s) as [|n]; [congruence|].
  change (is_scrolled (updateHeader y s) = true <-> (50 < y)%Q).
  rewrite updateHeader_is_scrolled. apply js_gt_spec.
Qed.

End HeaderScroll.

(** ** Image loading enhancement ([initImageLoading], main.js 395-418) *)

Module ImageLoading.

(** An [img[loading="lazy"]]: what the script reads ([complete],
    [naturalHeight], [src]), its class list, and whether the [load] and
    [error] listeners of lines 408 and 413 were added to it. *)
Record img := {
  complete : bool;
  naturalHeight : N;
  img_src : string;
  img_classes : ClassList.t;
  on_load : bool;
  on_error : bool
}.

(** The images and what was written with [console.warn]. *)
Record state := {
  lazyImages : list img;
  console : list string
}.

(** [img.complete && img.naturalHeight !== 0] *)
Definition already_loaded (i : img) : bool :=
  complete i && negb (naturalHeight i =? 0)%N.

Definition mark_loaded (i : img) : img :=
  {| complete := complete i; naturalHeight := naturalHeight i;
     img_src := img_src i;
     img_classes := ClassList.add "is-loaded" (img_classes i);
     on_load := on_load i; on_error := on_error i |}.

Definition listen (i : img) : img :=
  {| complete := complete i; naturalHeight := naturalHeight i;
     img_src := img_src i; img_classes := img_classes i;
     on_load := true; on_error := true |}.

(** The body of [lazyImages.forEach]. *)
Definition init_img (i : img) : img :=
  if already_loaded i then mark_loaded i else listen i.

Definition initImageLoading (s : state) : state :=
  match lazyImages s with
  | [] => s
  | _ :: _ =>
      {| lazyImages := map init_img (lazyImages s); console := console s |}
  end.

Fixpoint update_at (k : nat) (f : img -> img) (l : list img) {struct l}
  : list img :=
  match l, k with
  | [], _ => []
  | x :: l, O => f x :: l
  | x :: l, S k => x :: update_at k f l
  end.

(** The browser fires [load] or [error] on the image at position [k]. *)
Inductive event := Load (k : nat) | Error (k : nat).

Definition handle (e : event) (s : state) : state :=
  match e with
  | Load k =>
      match nth_error (lazyImages s) k with
      | Some i =>
          if on_load i
          then {| lazyImages := update_at k mark_loaded (lazyImages s);
                  console := console s |}
          else s
      | None => s
      end
  | Error k =>
      match nth_error (lazyImages s) k with
      | Some i =>
          if on_error i
          then {| lazyImages := update_at k mark_loaded (lazyImages s);
                  console :=
                    console s
                    ++ [String.append "Failed to load image: " (img_src i)] |}
          else s
      | None => s
      end
  end.

(** The class list of the image at position [k]. *)
Definition classes_at (k : nat) (s : state) : option ClassList.t :=
  option_map img_classes (nth_error (lazyImages s) k).

Definition is_loaded (k : nat) (s : state) : bool :=
  match classes_at k s with
  | Some c => ClassList.contains "is-loaded" c
  | None => false
  end.

Lemma nth_error_update_at k f l :
  nth_error (update_at k f l) k = option_map f (nth_error l k).
Proof.
  revert k. induction l as [|x l IH]; intros [|k]; simpl;
    try reflexivity. apply IH.
Qed.

Lemma nth_error_update_at_other k j f l :
  j <> k -> nth_error (update_at k f l) j = nth_error l j.
Proof.
  revert k j. induction l as [|x l IH]; intros [|k] [|j] H; simpl;
    try reflexivity; try congruence.
  apply IH. congruence.
Qed.

Lemma init_nth k s i :
  nth_error (lazyImages s) k = Some i ->
  nth_error (lazyImages (initImageLoading s)) k = Some (init_img i).
Proof.
  intros H. unfold initImageLoading.
  destruct (lazyImages s) as [|x l] eqn:E.
  - destruct k; discriminate.
  - cbn [lazyImages]. rewrite nth_error_map, H. reflexivity.
Qed.

Lemma init_console s : console (initImageLoading s) = console s.
Proof. unfold initImageLoading. now destruct (lazyImages s). Qed.

(** An event on one image leaves every other image alone. *)
Lemma handle_other e k j s :
  match e with Load n => n | Error n => n end = k ->
  j <> k -> classes_at j (handle e s) = classes_at j s.
Proof.
  intros E D. unfold classes_at.
  destruct e as [n|n]; simpl in E; subst n; simpl;
    destruct (nth_error (lazyImages s) k) as [i|]; try reflexivity.
  - destruct (on_load i); [|reflexivity]. simpl.
    now rewrite nth_error_update_at_other.
  - destruct (on_error i); [|reflexivity]. simpl.
    now rewrite nth_error_update_at_other.
Qed.

(** X21.  For the lazy image [i] at position [k].  If it is complete with
    a natural height other than zero when [initImageLoading] runs, it
    carries [is-loaded] right after, and no listener was needed.
    Otherwise initialisation leaves its classes as they were, and the
    marker is added when its [load] event fires and when its [error]
    event fires, the latter with a warning on the console; events of the
    other images do not touch it. *)
Theorem lazy_image_marked (s : state) (k : nat) (i : img) :
  nth_error (lazyImages s) k = Some i ->
  (already_loaded i = true ->
   is_loaded k (initImageLoading s) = true) /\
  (already_loaded i = false ->
   classes_at k (initImageLoading s) = Some (img_classes i) /\
   is_loaded k (handle (Load k) (initImageLoading s)) = true /\
   is_loaded k (handle (Error k) (initImageLoading s)) = true /\
   console (handle (Error k) (initImageLoading s))
     = console s ++ [String.append "Failed to load image: " (img_src i)]) /\
  (forall j e, j <> k ->
   match e with Load n => n | Error n => n end = j ->
   classes_at k (handle e (initImageLoading s))
     = classes_at k (initImageLoading s)).
Proof.
  intros H. pose proof (init_nth k s i H) as I.
  split; [|split].
  - intros A. unfold is_loaded, classes_at. rewrite I.
    unfold init_img. rewrite A. simpl. apply ClassList.contains_add.
  - intros A. unfold init_img in I. rewrite A in I.
    split; [unfold classes_at; now rewrite I|].
    unfold is_loaded, classes_at. simpl. rewrite I. simpl.
    rewrite !nth_error_update_at, I. simpl.
    rewrite ClassList.contains_add, init_console. now repeat split.
  - intros j e D E. apply (handle_other e j k); [exact E|congruence].
Qed.

(** Two lazy images: one served from the cache, one still loading. *)
Definition cached : img :=
  {| complete := true; naturalHeight := 600%N; img_src := "a.jpg";
     img_classes := []; on_load := false; on_error := false |}.

Definition pending : img :=
  {| complete := false; naturalHeight := 0%N; img_src := "b.jpg";
     img_classes := []; on_load := false; on_error := false |}.

Definition two_images : state :=
  {| lazyImages := [cached; pending]; console := [] |}.

Lemma lazy_image_marked_witness :
  is_loaded 1 (initImageLoading two_images) = false /\
  is_loaded 1 (handle (Error 1) (initImageLoading two_images)) = true /\
  console (handle (Error 1) (initImageLoading two_images))
    = ["Failed to load image: b.jpg"].
Proof.
  assert (H : nth_error (lazyImages two_images) 1 = Some pending)
    by reflexivity.
  destruct (lazy_image_marked two_images 1 pending H) as (_ & P & _).
  destruct (P eq_refl) as (_ & _ & E & C).
  split; [reflexivity|]. split; [exact E|exact C].
Defined.

End ImageLoading.

(** ** Lists updated at one position *)

Module UpdateAt.
Import Filters.

Lemma length_update_at {A : Type} k (f : A -> A) l :
  List.length (update_at k f l) = List.length l.
Proof.
  revert k. induction l as [|x l IH]; intros [|k]; simpl; try reflexivity.
  now rewrite IH.
Qed.

Lemma nth_error_same {A : Type} k (f : A -> A) l :
  nth_error (update_at k f l) k = option_map f (nth_error l k).
Proof.
  revert k. induction l as [|x l IH]; intros [|k]; simpl; try reflexivity.
  apply IH.
Qed.

Lemma nth_error_other {A : Type} k j (f : A -> A) l :
  j <> k -> nth_error (update_at k f l) j = nth_error l j.
Proof.
  revert k j. induction l as [|x l IH]; intros [|k] [|j] H; simpl;
    try reflexivity; try congruence.
  apply IH. congruence.
Qed.

End UpdateAt.

(** ** Scroll reveals ([initScrollReveals], main.js 16-37) *)

Module ScrollReveal.

(** A [.reveal] element: its class list, and whether [revealObserver]
    still observes it. *)
Record element := {
  classes : ClassList.t;
  observed : bool
}.

Definition state := list element.

(** An [IntersectionObserverEntry]: its target, by position among the
    [.reveal] elements, and [isIntersecting]. *)
Record entry := {
  target : nat;
  isIntersecting : bool
}.

(** [entry.target.classList.add('is-visible'); observer.unobserve(...)] *)
Definition reveal (el : element) : element :=
  {| classes := ClassList.add "is-visible" (classes el);
     observed := false |}.

(** The body of [entries.forEach] in the observer callback. *)
Definition on_entry (s : state) (e : entry) : state :=
  if isIntersecting e then Filters.update_at (target e) reveal s else s.

(** The observer callback, on one batch of entries. *)
Definition callback (entries : list entry) (s : state) : state :=
  fold_left on_entry entries s.

(** [initScrollReveals]: every [.reveal] element is observed; without any
    the function returns before creating the observer. *)
Definition initScrollReveals (els : list ClassList.t) : state :=
  match els with
  | [] => []
  | _ :: _ => map (fun c => {| classes := c; observed := true |}) els
  end.

(** The callback runs once per batch the browser delivers. *)
Definition run (batches : list (list entry)) (s : state) : state :=
  fold_left (fun s b => callback b s) batches s.

Definition is_visible (k : nat) (s : state) : bool :=
  match nth_error s k with
  | Some el => ClassList.contains "is-visible" (classes el)
  | None => false
  end.

Definition is_observed (k : nat) (s : state) : bool :=
  match nth_error s k with
  | Some el => observed el
  | None => false
  end.

(** The batch has an intersecting entry for element [k]. *)
Definition hits (k : nat) (entries : list entry) : bool :=
  existsb (fun e => Nat.eqb (target e) k && isIntersecting e) entries.

Lemma on_entry_length s e : List.length (on_entry s e) = List.length s.
Proof.
  unfold on_entry. destruct (isIntersecting e); [|reflexivity].
  apply UpdateAt.length_update_at.
Qed.

Lemma on_entry_visible k s e :
  (k < List.length s)%nat ->
  is_visible k (on_entry s e)
  = is_visible k s || (Nat.eqb (target e) k && isIntersecting e).
Proof.
  intros Hk. unfold on_entry, is_visible.
  destruct (isIntersecting e); [|now rewrite andb_false_r, orb_false_r].
  rewrite andb_true_r. destruct (Nat.eqb_spec (target e) k) as [->|D].
  - rewrite UpdateAt.nth_error_same.
    destruct (nth_error s k) eqn:E; [|apply nth_error_None in E; lia].
    simpl. rewrite ClassList.contains_add. now rewrite orb_true_r.
  - rewrite UpdateAt.nth_error_other by congruence. now rewrite orb_false_r.
Qed.

Lemma on_entry_observed k s e :
  is_observed k (on_entry s e)
  = is_observed k s && negb (Nat.eqb (target e) k && isIntersecting e).
Proof.
  unfold on_entry, is_observed.
  destruct (isIntersecting e); [|now rewrite andb_false_r, andb_true_r].
  rewrite andb_true_r. destruct (Nat.eqb_spec (target e) k) as [->|D].
  - rewrite UpdateAt.nth_error_same.
    destruct (nth_error s k); simpl; [now rewrite andb_false_r|reflexivity].
  - rewrite UpdateAt.nth_error_other by congruence. now rewrite andb_true_r.
Qed.

Lemma callback_length entries s :
  List.length (callback entries s) = List.length s.
Proof.
  unfold callback. revert s.
  induction entries as [|e es IH]; intros s; simpl; [reflexivity|].
  now rewrite IH, on_entry_length.
Qed.

(** X1.  One batch of entries reveals exactly the elements it has an
    intersecting entry for: afterwards element [k] carries [is-visible] iff
    it did before or the batch hits it, and it is still observed iff it was
    and the batch does not hit it. *)
Theorem callback_reveals_hits (entries : list entry) (s : state) (k : nat) :
  (k < List.length s)%nat ->
  is_visible k (callback entries s) = is_visible k s || hits k entries /\
  is_observed k (callback entries s)
  = is_observed k s && negb (hits k entries).
Proof.
  unfold callback. revert s.
  induction entries as [|e es IH]; intros s Hk; simpl.
  - now rewrite orb_false_r, andb_true_r.
  - assert (Hk' : (k < List.length (on_entry s e))%nat)
      by now rewrite on_entry_length.
    destruct (IH (on_entry s e) Hk') as [V O]. rewrite V, O.
    rewrite on_entry_visible by exact Hk. rewrite on_entry_observed.
    split.
    + now rewrite orb_assoc.
    + rewrite negb_orb. now rewrite andb_assoc.
Qed.

Definition two_reveals : state :=
  initScrollReveals [["reveal"]; ["reveal"; "hero"]].

Lemma callback_reveals_hits_witness :
  is_visible 1
    (callback [{| target := 0; isIntersecting := false |};
               {| target := 1; isIntersecting := true |}] two_reveals) = true /\
  is_observed 1
    (callback [{| target := 0; isIntersecting := false |};
               {| target := 1; isIntersecting := true |}] two_reveals) = false.
Proof.
  apply (callback_reveals_hits
           [{| target := 0; isIntersecting := false |};
            {| target := 1; isIntersecting := true |}] two_reveals 1).
  simpl. lia.
Defined.

Definition classes_at (k : nat) (s : state) : option ClassList.t :=
  option_map classes (nth_error s k).

Lemma add_present c l :
  ClassList.contains c l = true -> ClassList.add c l = l.
Proof. intros H. unfold ClassList.add. now rewrite H. Qed.

Lemma on_entry_frozen k s e :
  is_visible k s = true ->
  classes_at k (on_entry s e) = classes_at k s.
Proof.
  unfold is_visible, classes_at, on_entry. intros V.
  destruct (isIntersecting e); [|reflexivity].
  destruct (Nat.eq_dec (target e) k) as [->|D].
  - rewrite UpdateAt.nth_error_same.
    destruct (nth_error s k) as [el|]; [|discriminate]. simpl.
    now rewrite add_present.
  - now rewrite UpdateAt.nth_error_other by congruence.
Qed.

Lemma classes_at_visible k s s' :
  classes_at k s' = classes_at k s -> is_visible k s' = is_visible k s.
Proof.
  unfold classes_at, is_visible.
  destruct (nth_error s' k), (nth_error s k); simpl; congruence.
Qed.

Lemma callback_frozen k entries s :
  is_visible k s = true ->
  classes_at k (callback entries s) = classes_at k s.
Proof.
  unfold callback. revert s.
  induction entries as [|e es IH]; intros s V; simpl; [reflexivity|].
  pose proof (on_entry_frozen k s e V) as F.
  rewrite IH; [exact F|].
  now rewrite (classes_at_visible k s (on_entry s e) F).
Qed.

(** X2.  A revealed element is final: once it carries [is-visible], no
    later batch of entries, intersecting or not, changes its class list
    (the marker is not removed and not added a second time). *)
Theorem revealed_is_final (batches : list (list entry)) (s : state) (k : nat) :
  is_visible k s = true ->
  classes_at k (run batches s) = classes_at k s /\
  is_visible k (run batches s) = true.
Proof.
  unfold run. revert s.
  induction batches as [|b bs IH]; intros s V; simpl; [now split|].
  pose proof (callback_frozen k b s V) as F.
  assert (V' : is_visible k (callback b s) = true)
    by now rewrite (classes_at_visible k s (callback b s) F).
  destruct (IH (callback b s) V') as [C W].
  split; [now rewrite C|exact W].
Qed.

Lemma revealed_is_final_witness :
  classes_at 0
    (run [[{| target := 0; isIntersecting := true |}];
          [{| target := 0; isIntersecting := false |};
           {| target := 0; isIntersecting := true |}]] two_reveals)
  = Some ["reveal"; "is-visible"].
Proof.
  apply (revealed_is_final
           [[{| target := 0; isIntersecting := false |};
             {| target := 0; isIntersecting := true |}]]
           (callback [{| target := 0; isIntersecting := true |}] two_reveals)
           0).
  reflexivity.
Defined.

End ScrollReveal.

(** ** More on the navigation overlay *)

Module NavigationProps.
Import Navigation.

Lemma remove_remove c l :
  ClassList.remove c (ClassList.remove c l) = ClassList.remove c l.
Proof.
  unfold ClassList.remove. induction l as [|d l IH]; simpl; [reflexivity|].
  destruct (negb (String.eqb c d)) eqn:E; simpl; [|exact IH].
  now rewrite E, IH.
Qed.

Definition overlay_active (s : state) : bool :=
  ClassList.contains "is-active" (overlay_classes s).

Lemma handle_never_opens e s :
  e <> HamburgerClick ->
  (active (handle e s) = true -> active s = true) /\
  (overlay_active (handle e s) = true -> overlay_active s = true).
Proof.
  intros D. unfold overlay_active.
  destruct e as [|i|key|b]; simpl; [congruence| | |].
  - destruct (i <? links s)%nat; [|tauto].
    rewrite closeNav_active. simpl. rewrite ClassList.contains_remove.
    split; discriminate.
  - destruct (_ && _); [|tauto].
    rewrite closeNav_active. simpl. rewrite ClassList.contains_remove.
    split; discriminate.
  - destruct b; [|tauto].
    rewrite closeNav_active. simpl. rewrite ClassList.contains_remove.
    split; discriminate.
Qed.

(** X3.  Only a click on the hamburger opens the overlay: after events
    among which there is no hamburger click (link clicks, key presses,
    clicks on the overlay), the hamburger or the overlay carries
    [is-active] only if it did at the start. *)
Theorem only_hamburger_opens (es : list event) (s : state) :
  Forall (fun e => e <> HamburgerClick) es ->
  (active (run es s) = true -> active s = true) /\
  (overlay_active (run es s) = true -> overlay_active s = true).
Proof.
  unfold run. intros F. revert s.
  induction F as [|e es D F IH]; intros s; simpl; [tauto|].
  destruct (IH (handle e s)) as [A O].
  destruct (handle_never_opens e s D) as [A' O'].
  split; intros H; [apply A', A, H|apply O', O, H].
Qed.

Lemma only_hamburger_opens_witness :
  active (run [Keydown "Enter"; OverlayClick false; LinkClick 9]
              (toggleNav closed_state)) = true /\
  active (toggleNav closed_state) = true.
Proof.
  split; [reflexivity|].
  apply (only_hamburger_opens
           [Keydown "Enter"; OverlayClick false; LinkClick 9]
           (toggleNav closed_state)).
  - repeat constructor; discriminate.
  - reflexivity.
Defined.

(** X4.  [closeNav] needs no assumption on the state it is called in: from
    any state, even one whose markers disagree, it gives a consistent,
    inactive state, and a second [closeNav] changes nothing. *)
Theorem closeNav_resets (s : state) :
  consistent (closeNav s) /\
  active (closeNav s) = false /\
  closeNav (closeNav s) = closeNav s.
Proof.
  split; [apply closeNav_consistent|]. split; [apply closeNav_active|].
  unfold closeNav. simpl. rewrite !remove_remove.
  destruct (logo s) as [c|]; simpl; [now rewrite remove_remove|reflexivity].
Qed.

Lemma toggleNav_agreement s : classes_agree (toggleNav s) <-> classes_agree s.
Proof.
  unfold classes_agree. rewrite toggleNav_active. unfold active. simpl.
  rewrite ClassList.contains_toggle.
  destruct (ClassList.contains "is-active" (overlay_classes s)),
           (ClassList.contains "is-active" (hamburger_classes s));
    simpl; split; congruence.
Qed.

(** X5.  [toggleNav] flips both markers, so it cannot repair a
    disagreement: if the hamburger and the overlay start with different
    active markers, they still differ after any number of toggles. *)
Theorem toggleNav_keeps_disagreement (n : nat) (s : state) :
  ~ classes_agree s ->
  ~ classes_agree (Nat.iter n toggleNav s) /\
  ~ consistent (Nat.iter n toggleNav s).
Proof.
  intros D.
  assert (A : ~ classes_agree (Nat.iter n toggleNav s)).
  { induction n as [|n IH]; [exact D|].
    rewrite Nat.iter_succ. now rewrite toggleNav_agreement. }
  split; [exact A|]. intros C. apply A, consistent_classes_agree, C.
Qed.

(** The overlay shipped open, the hamburger not. *)
Definition skewed_state : state :=
  {| hamburger_classes := ["hamburger"]; aria_expanded := Some "false";
     overlay_classes := ["nav-overlay"; "is-active"];
     aria_hidden := Some "false";
     logo := None; links := 0%nat; body_overflow := "" |}.

Lemma toggleNav_keeps_disagreement_witness :
  ~ classes_agree (Nat.iter 3 toggleNav skewed_state).
Proof.
  apply (toggleNav_keeps_disagreement 3 skewed_state). discriminate.
Defined.

(** The logo's light variant goes with the active state. *)
Definition logo_synced (s : state) : Prop :=
  match logo s with
  | Some c => ClassList.contains "is-light" c = active s
  | None => True
  end.

Lemma apply_op_logo o s : logo_synced s -> logo_synced (apply_op o s).
Proof.
  unfold logo_synced. intros H. destruct o; simpl.
  - rewrite toggleNav_active. destruct (logo s) as [c|]; simpl; [|exact I].
    now rewrite ClassList.contains_toggle, H.
  - rewrite closeNav_active. destruct (logo s) as [c|]; simpl; [|exact I].
    apply ClassList.contains_remove.
Qed.

(** X6.  When there is a logo and its [is-light] marker starts in step
    with the hamburger's [is-active], it stays in step after every sequence
    of [toggleNav] and [closeNav]. *)
Theorem logo_follows_nav (os : list op) (s : state) :
  logo_synced s -> logo_synced (run_ops os s).
Proof.
  unfold run_ops. revert s.
  induction os as [|o os IH]; intros s H; simpl; [exact H|].
  apply IH, apply_op_logo, H.
Qed.

Lemma logo_follows_nav_witness :
  logo_synced (run_ops [Toggle; Close; Toggle] closed_state).
Proof. apply (logo_follows_nav [Toggle; Close; Toggle] closed_state). reflexivity. Defined.

Lemma nav_events_consistent_witness :
  consistent (run [HamburgerClick; Keydown "Tab"; OverlayClick false;
                   Keydown "Escape"; HamburgerClick; LinkClick 1]
                  closed_state).
Proof.
  apply (nav_events_consistent
           [HamburgerClick; Keydown "Tab"; OverlayClick false;
            Keydown "Escape"; HamburgerClick; LinkClick 1] closed_state).
  repeat split; reflexivity.
Defined.

End NavigationProps.

(** ** More on the lightbox *)

Module LightboxSafety.
Import Lightbox LightboxProps.

(** The markup is complete (image element and close control found) and
    the cursor is on a gallery item. *)
Definition well_formed (s : state) : Prop :=
  (exists im, lightboxImage s = Some im) /\
  lightboxClose s = true /\
  0 <= currentIndex s < images_length s.

(** Some handler of the history raised. *)
Fixpoint run_raises (es : list event) (s : state) : bool :=
  match es with
  | [] => false
  | e :: es => raised (handle e s) || run_raises es (after (handle e s))
  end.

Lemma js_index_in_range {A : Type} (l : list A) (i : Z) :
  0 <= i < Z.of_nat (List.length l) -> exists x, js_index l i = Some x.
Proof.
  intros H. unfold js_index.
  destruct (Z.ltb_spec i 0) as [N|_]; [lia|].
  destruct (nth_error l (Z.to_nat i)) as [x|] eqn:E; [now exists x|].
  apply nth_error_None in E. lia.
Qed.

Lemma updateLightboxImage_wf s :
  well_formed s ->
  raised (updateLightboxImage s) = false /\
  well_formed (after (updateLightboxImage s)).
Proof.
  intros ([im Him] & Hc & Hr).
  destruct (js_index_in_range (images s) (currentIndex s) Hr) as [it Hit].
  unfold updateLightboxImage. rewrite Hit, Him. simpl.
  split; [reflexivity|]. unfold well_formed. simpl.
  split; [eauto|]. split; assumption.
Qed.

Lemma set_currentIndex_wf i s :
  well_formed s -> 0 <= i < images_length s ->
  well_formed (set_currentIndex i s).
Proof. intros (Him & Hc & _) Hi. unfold well_formed. simpl. tauto. Qed.

Lemma nextImage_wf s :
  well_formed s ->
  raised (nextImage s) = false /\ well_formed (after (nextImage s)).
Proof.
  intros W. unfold nextImage. apply updateLightboxImage_wf.
  apply set_currentIndex_wf; [exact W|].
  destruct W as (_ & _ & Hr). rewrite next_rem_mod by exact Hr.
  apply Z.mod_pos_bound. lia.
Qed.

Lemma prevImage_wf s :
  well_formed s ->
  raised (prevImage s) = false /\ well_formed (after (prevImage s)).
Proof.
  intros W. unfold prevImage. apply updateLightboxImage_wf.
  apply set_currentIndex_wf; [exact W|].
  destruct W as (_ & _ & Hr). rewrite prev_rem_mod by exact Hr.
  apply Z.mod_pos_bound. lia.
Qed.

Lemma closeLightbox_wf s :
  well_formed s ->
  raised (closeLightbox s) = false /\ well_formed (after (closeLightbox s)).
Proof.
  intros (Him & Hc & Hr).
  destruct (js_index_in_range (images s) (currentIndex s) Hr) as [it Hit].
  unfold closeLightbox. simpl. rewrite Hit. simpl.
  split; [reflexivity|]. unfold well_formed. simpl. tauto.
Qed.

Lemma openLightbox_wf (i : nat) s :
  well_formed s -> (i < List.length (images s))%nat ->
  raised (openLightbox (Z.of_nat i) s) = false /\
  well_formed (after (openLightbox (Z.of_nat i) s)).
Proof.
  intros ([im Him] & Hc & _) Hi.
  assert (Hr : 0 <= Z.of_nat i < Z.of_nat (List.length (images s))) by lia.
  destruct (js_index_in_range (images s) (Z.of_nat i) Hr) as [it Hit].
  unfold openLightbox. simpl. rewrite Hit.
  unfold show_image, focus_close. simpl. rewrite Him. simpl. rewrite Hc. simpl.
  split; [reflexivity|]. unfold well_formed, images_length. simpl.
  split; [eauto|]. split; [first [reflexivity|exact Hc]|exact Hr].
Qed.

Lemma timeout_wf s :
  well_formed s ->
  raised (timeout s) = false /\ well_formed (after (timeout s)).
Proof.
  intros W. pose proof W as ([im Him] & Hc & Hr). unfold timeout.
  destruct (timers s) as [|[imgSrc imgAlt] rest]; [now split|].
  simpl. rewrite Him. simpl. split; [reflexivity|].
  unfold well_formed. simpl. split; [eauto|]. split; assumption.
Qed.

Lemma handleSwipe_wf s :
  well_formed s ->
  raised (handleSwipe s) = false /\ well_formed (after (handleSwipe s)).
Proof.
  intros W. unfold handleSwipe.
  destruct (_ <? _); [now split|].
  destruct (_ >? _); [now apply nextImage_wf|now apply prevImage_wf].
Qed.

Lemma handle_wf e s :
  well_formed s ->
  raised (handle e s) = false /\ well_formed (after (handle e s)).
Proof.
  intros W. destruct e as [i|i key| | | |key|b|x|x|]; simpl.
  - destruct (Nat.ltb_spec i (List.length (images s)));
      [now apply openLightbox_wf|now split].
  - destruct (Nat.ltb_spec i (List.length (images s))); [|now split].
    destruct (_ || _); [now apply openLightbox_wf|now split].
  - destruct (lightboxClose s); [now apply closeLightbox_wf|now split].
  - destruct (lightboxPrev s); [now apply prevImage_wf|now split].
  - destruct (lightboxNext s); [now apply nextImage_wf|now split].
  - unfold onKeydown. destruct (negb (is_active s)); [now split|].
    destruct (String.eqb key "Escape"); [now apply closeLightbox_wf|].
    destruct (String.eqb key "ArrowRight"); [now apply nextImage_wf|].
    destruct (String.eqb key "ArrowLeft"); [now apply prevImage_wf|now split].
  - destruct b; [now apply closeLightbox_wf|now split].
  - split; [reflexivity|]. destruct W as (Him & Hc & Hr).
    unfold well_formed. simpl. tauto.
  - apply handleSwipe_wf. destruct W as (Him & Hc & Hr).
    unfold well_formed. simpl. tauto.
  - now apply timeout_wf.
Qed.

(** X7.  With the image element and the close control in the markup and
    the cursor on a gallery item, no handler of the lightbox ever raises:
    whatever the clicks, keys, touches and timers that follow, every one
    runs to its end and the cursor stays on a gallery item. *)
Theorem complete_markup_never_raises (es : list event) (s : state) :
  well_formed s ->
  run_raises es s = false /\ well_formed (run es s).
Proof.
  revert s. induction es as [|e es IH]; intros s W; simpl; [now split|].
  destruct (handle_wf e s W) as [R W']. rewrite R. simpl. now apply IH.
Qed.

Lemma portfolio_well_formed : well_formed portfolio_state.
Proof.
  split; [now exists blank_image|]. split; [reflexivity|].
  unfold images_length. simpl. lia.
Qed.

Lemma complete_markup_never_raises_witness :
  run_raises [ItemClick 4; NextClick; TouchStart 300; TouchEnd 10;
              Keydown "ArrowLeft"; Timeout; Keydown "Escape"]
             portfolio_state = false.
Proof.
  apply (complete_markup_never_raises
           [ItemClick 4; NextClick; TouchStart 300; TouchEnd 10;
            Keydown "ArrowLeft"; Timeout; Keydown "Escape"]
           portfolio_state).
  split; [now exists blank_image|]. split; [reflexivity|].
  unfold images_length. simpl. lia.
Defined.

(** The closure [initLightbox] builds for [no_close_doc]. *)
Definition no_close_state : state :=
  {| images := doc_items no_close_doc; lightbox_classes := ["lightbox"];
     lightboxImage := Some blank_image; lightboxClose := false;
     lightboxPrev := false; lightboxNext := false;
     currentIndex := 0; body_overflow := "";
     focused := FocusElsewhere; touchStartX := 0; touchEndX := 0;
     timers := [] |}.

Lemma openLightbox_raises_witness :
  initLightbox no_close_doc = Some no_close_state /\
  raised (openLightbox (Z.of_nat 0) no_close_state) = true.
Proof.
  split; [reflexivity|].
  assert (H : (0 < List.length (images no_close_state))%nat) by (simpl; lia).
  apply (proj2 (openLightbox_raises 0 no_close_state H)).
  right. reflexivity.
Defined.

End LightboxSafety.

Module LightboxSession.
Import Lightbox LightboxProps LightboxSafety.

Lemma alt_or_default_nonempty a : alt_or_default a <> "".
Proof.
  unfold alt_or_default. destruct a as [x|]; [|discriminate].
  destruct (String.eqb_spec x ""); [discriminate|assumption].
Qed.

Lemma lightbox_run_app es1 es2 s : run (es1 ++ es2) s = run es2 (run es1 s).
Proof.
  revert s. induction es1 as [|e es1 IH]; intros s; [reflexivity|].
  simpl. apply IH.
Qed.

(** The state a click on gallery item [i] leaves. *)
Definition opened (i : nat) (s : state) : state := after (handle (ItemClick i) s).

Lemma opened_facts (i : nat) (it : gallery_item) (s : state) :
  well_formed s ->
  nth_error (images s) i = Some it ->
  images (opened i s) = images s /\
  currentIndex (opened i s) = Z.of_nat i /\
  is_active (opened i s) = true /\
  body_overflow (opened i s) = "hidden" /\
  focused (opened i s) = FocusClose /\
  timers (opened i s) = timers s /\
  lightboxImage (opened i s)
  = option_map (fun im => {| src := data_lightbox it;
                             alt := alt_or_default (img_alt it);
                             opacity := opacity im |}) (lightboxImage s).
Proof.
  intros ([im Him] & Hc & _) Hit.
  assert (Hi : (i < List.length (images s))%nat)
    by (apply nth_error_Some; congruence).
  unfold opened. simpl handle.
  destruct (Nat.ltb_spec i (List.length (images s))) as [_|N]; [|lia].
  unfold openLightbox, js_index. simpl.
  destruct (Z.ltb_spec (Z.of_nat i) 0) as [N|_]; [lia|].
  rewrite Nat2Z.id, Hit. unfold show_image, focus_close. simpl.
  rewrite Him. simpl. rewrite Hc. simpl.
  unfold is_active. simpl. rewrite ClassList.contains_add.
  repeat split; reflexivity.
Qed.

(** X8.  A session without navigation.  A click on gallery item [i] puts
    the cursor on [i], shows the item's [data-lightbox] source with its
    image's alt text (or 'Gallery image', never an empty alt), makes the
    lightbox active, locks the page scroll and focuses the close control;
    a click on the close control then makes it inactive, unlocks the
    scroll and gives the focus back to item [i]. *)
Theorem open_then_close (i : nat) (it : gallery_item) (s : state) :
  well_formed s ->
  nth_error (images s) i = Some it ->
  (currentIndex (opened i s) = Z.of_nat i /\
   is_active (opened i s) = true /\
   body_overflow (opened i s) = "hidden" /\
   focused (opened i s) = FocusClose /\
   exists im, lightboxImage (opened i s) = Some im /\
              src im = data_lightbox it /\
              alt im = alt_or_default (img_alt it) /\
              alt im <> "") /\
  (raised (handle CloseClick (opened i s)) = false /\
   is_active (after (handle CloseClick (opened i s))) = false /\
   body_overflow (after (handle CloseClick (opened i s))) = "" /\
   focused (after (handle CloseClick (opened i s))) = FocusItem (Z.of_nat i)).
Proof.
  intros W Hit.
  destruct (opened_facts i it s W Hit) as (Hi & Hc & Ha & Ho & Hf & _ & Hl).
  assert (Hlt : (i < List.length (images s))%nat)
    by (apply nth_error_Some; congruence).
  assert (W' : well_formed (opened i s)).
  { unfold opened. apply handle_wf, W. }
  split.
  - repeat split; try assumption.
    destruct W as ([im Him] & _). rewrite Him in Hl. simpl in Hl.
    eexists. split; [exact Hl|]. simpl.
    repeat split. apply alt_or_default_nonempty.
  - destruct W' as (_ & Hclose & Hr).
    destruct (js_index_in_range (images (opened i s))
                (currentIndex (opened i s)) Hr) as [x Hx].
    simpl handle. rewrite Hclose. unfold closeLightbox. simpl.
    rewrite Hx. simpl. unfold is_active. simpl.
    rewrite ClassList.contains_remove, Hc. repeat split.
Qed.

Lemma open_then_close_witness :
  focused (run [ItemClick 3; CloseClick] portfolio_state) = FocusItem 3.
Proof.
  destruct (open_then_close 3 (item "4.jpg" "four") portfolio_state
              portfolio_well_formed eq_refl) as (_ & _ & _ & _ & F).
  exact F.
Defined.

Lemma nextImage_active s : is_active (after (nextImage s)) = is_active s.
Proof.
  unfold is_active, nextImage. now rewrite updateLightboxImage_classes.
Qed.

Lemma arrows_right (k : nat) : forall s,
  well_formed s -> is_active s = true ->
  well_formed (run (repeat (Keydown "ArrowRight") k) s) /\
  is_active (run (repeat (Keydown "ArrowRight") k) s) = true /\
  images_length (run (repeat (Keydown "ArrowRight") k) s) = images_length s /\
  currentIndex (run (repeat (Keydown "ArrowRight") k) s)
  = (currentIndex s + Z.of_nat k) mod images_length s.
Proof.
  induction k as [|k IH]; intros s W A.
  - simpl. repeat split; try assumption; try apply W.
    rewrite Z.add_0_r. symmetry. apply Z.mod_small, W.
  - cbn [repeat run handle]. unfold onKeydown. rewrite A. simpl negb.
    cbn [String.eqb Ascii.eqb Bool.eqb]. simpl after.
    change (after (nextImage s)) with (next_step s).
    destruct (nextImage_wf s W) as [_ W1].
    assert (A1 : is_active (next_step s) = true)
      by (unfold next_step; now rewrite nextImage_active).
    destruct (IH (next_step s) W1 A1) as (W2 & A2 & L2 & C2).
    unfold next_step in L2, C2 at 2 3. rewrite nextImage_length in L2, C2.
    rewrite nextImage_currentIndex in C2.
    rewrite next_rem_mod in C2 by apply W.
    repeat split; try assumption; try apply W2.
    rewrite C2, Zplus_mod_idemp_l. f_equal. lia.
Qed.

(** X9.  Focus goes to the item under the cursor, not to the opener: after
    opening item [i], pressing ArrowRight [k] times and then Escape, the
    focus is on gallery item (i + k) mod N. *)
Theorem escape_focuses_current_item (i k : nat) (s : state) :
  well_formed s ->
  (i < List.length (images s))%nat ->
  focused (run (ItemClick i :: repeat (Keydown "ArrowRight") k
                  ++ [Keydown "Escape"]) s)
  = FocusItem ((Z.of_nat i + Z.of_nat k) mod images_length s).
Proof.
  intros W Hi.
  destruct (nth_error (images s) i) as [it|] eqn:Hit;
    [|apply nth_error_None in Hit; lia].
  destruct (opened_facts i it s W Hit) as (Him & Hc & Ha & _).
  assert (W' : well_formed (opened i s)) by (apply handle_wf, W).
  destruct (arrows_right k (opened i s) W' Ha) as (W2 & A2 & L2 & C2).
  cbn [run]. fold (opened i s). rewrite lightbox_run_app. cbn [run handle].
  unfold onKeydown. rewrite A2. simpl negb.
  cbn [String.eqb Ascii.eqb Bool.eqb].
  destruct W2 as (_ & _ & Hr).
  destruct (js_index_in_range _ _ Hr) as [x Hx].
  unfold closeLightbox. simpl. rewrite Hx. simpl.
  rewrite C2, Hc. unfold images_length at 1. now rewrite Him.
Qed.

Lemma escape_focuses_current_item_witness :
  focused (run [ItemClick 3; Keydown "ArrowRight"; Keydown "ArrowRight";
                Keydown "ArrowRight"; Keydown "Escape"] portfolio_state)
  = FocusItem 1.
Proof.
  apply (escape_focuses_current_item 3 3 portfolio_state
           portfolio_well_formed).
  simpl. lia.
Defined.

End LightboxSession.

Module LightboxFade.
Import Lightbox LightboxProps LightboxSafety LightboxSession.

(** Source and alt text the lightbox shows for a gallery item. *)
Definition item_view (it : gallery_item) : string * string :=
  (data_lightbox it, alt_or_default (img_alt it)).

(** Source and alt text of the lightbox image right now. *)
Definition displayed (s : state) : option (string * string) :=
  option_map (fun im => (src im, alt im)) (lightboxImage s).

(** What the image will show once every pending fade timer has fired: the
    capture of the youngest timer, or the present image if none is
    pending. *)
Definition pending_view (s : state) : option (string * string) :=
  last (map Some (timers s)) (displayed s).

(** The youngest write to the image, done or pending, is the item under
    the cursor. *)
Definition tracks (s : state) : Prop :=
  pending_view s
  = option_map item_view (js_index (images s) (currentIndex s)).

(** Every event but the opening ones (click or key on a gallery item). *)
Definition navigation (e : event) : bool :=
  match e with
  | ItemClick _ | ItemKeydown _ _ => false
  | _ => true
  end.

Lemma last_cons {A : Type} (a d : A) l : last (a :: l) d = last l a.
Proof.
  revert a d. induction l as [|b l IH]; intros a d; [reflexivity|].
  change (last (a :: b :: l) d) with (last (b :: l) d).
  now rewrite (IH b d), (IH b a).
Qed.

Lemma updateLightboxImage_tracks s :
  well_formed s -> tracks (after (updateLightboxImage s)).
Proof.
  intros ([im Him] & _ & Hr).
  destruct (js_index_in_range (images s) (currentIndex s) Hr) as [it Hit].
  unfold updateLightboxImage. rewrite Hit, Him. simpl.
  unfold tracks, pending_view. simpl.
  rewrite map_app. cbn [map]. rewrite last_last, Hit. reflexivity.
Qed.

Lemma closeLightbox_tracks s :
  well_formed s -> tracks s -> tracks (after (closeLightbox s)).
Proof.
  intros (_ & _ & Hr) T.
  destruct (js_index_in_range (images s) (currentIndex s) Hr) as [it Hit].
  unfold closeLightbox. simpl. rewrite Hit. exact T.
Qed.

Lemma timeout_tracks s :
  well_formed s -> tracks s -> tracks (after (timeout s)).
Proof.
  intros ([im Him] & _) T. unfold timeout.
  destruct (timers s) as [|[imgSrc imgAlt] rest] eqn:E; [exact T|].
  simpl. rewrite Him. simpl.
  unfold tracks, pending_view, displayed in *. simpl.
  rewrite E in T. simpl map in T. rewrite last_cons in T. exact T.
Qed.

Lemma nextImage_tracks s : well_formed s -> tracks (after (nextImage s)).
Proof.
  intros W. unfold nextImage. apply updateLightboxImage_tracks.
  apply set_currentIndex_wf; [exact W|].
  destruct W as (_ & _ & Hr). rewrite next_rem_mod by exact Hr.
  apply Z.mod_pos_bound. lia.
Qed.

Lemma prevImage_tracks s : well_formed s -> tracks (after (prevImage s)).
Proof.
  intros W. unfold prevImage. apply updateLightboxImage_tracks.
  apply set_currentIndex_wf; [exact W|].
  destruct W as (_ & _ & Hr). rewrite prev_rem_mod by exact Hr.
  apply Z.mod_pos_bound. lia.
Qed.

Lemma set_touchEndX_wf x s : well_formed s -> well_formed (set_touchEndX x s).
Proof. intros (Him & Hc & Hr). unfold well_formed. simpl. tauto. Qed.

Lemma handle_tracks e s :
  navigation e = true -> well_formed s -> tracks s ->
  tracks (after (handle e s)).
Proof.
  intros N W T.
  pose proof (nextImage_tracks s W) as Nx.
  pose proof (prevImage_tracks s W) as Pv.
  destruct e as [i|i key| | | |key|b|x|x|]; simpl in N; try discriminate;
    simpl handle.
  - destruct (lightboxClose s); [now apply closeLightbox_tracks|exact T].
  - destruct (lightboxPrev s); [exact Pv|exact T].
  - destruct (lightboxNext s); [exact Nx|exact T].
  - unfold onKeydown. destruct (negb (is_active s)); [exact T|].
    destruct (String.eqb key "Escape"); [now apply closeLightbox_tracks|].
    destruct (String.eqb key "ArrowRight"); [exact Nx|].
    destruct (String.eqb key "ArrowLeft"); [exact Pv|exact T].
  - destruct b; [now apply closeLightbox_tracks|exact T].
  - exact T.
  - unfold handleSwipe.
    destruct (_ <? _); [exact T|].
    destruct (_ >? _).
    + apply nextImage_tracks, set_touchEndX_wf, W.
    + apply prevImage_tracks, set_touchEndX_wf, W.
  - now apply timeout_tracks.
Qed.

Lemma run_tracks es : forall s,
  Forall (fun e => navigation e = true) es ->
  well_formed s -> tracks s ->
  well_formed (run es s) /\ tracks (run es s).
Proof.
  induction es as [|e es IH]; intros s F W T; [now split|].
  inversion F as [|e' es' N F']; subst. simpl.
  apply IH; [exact F'|apply handle_wf, W|now apply handle_tracks].
Qed.

(** Firing every pending timer empties the queue and moves neither the
    cursor nor the gallery. *)
Lemma drain n : forall s,
  well_formed s -> tracks s -> List.length (timers s) = n ->
  timers (run (repeat Timeout n) s) = [] /\
  tracks (run (repeat Timeout n) s) /\
  images (run (repeat Timeout n) s) = images s /\
  currentIndex (run (repeat Timeout n) s) = currentIndex s.
Proof.
  induction n as [|n IH]; intros s W T L.
  - simpl. destruct (timers s); [now repeat split|discriminate].
  - cbn [repeat run handle].
    destruct (timeout_wf s W) as [_ W'].
    pose proof (timeout_tracks s W T) as T'.
    assert (F : List.length (timers (after (timeout s))) = n
                /\ images (after (timeout s)) = images s
                /\ currentIndex (after (timeout s)) = currentIndex s).
    { destruct W as ([im Him] & _). unfold timeout.
      destruct (timers s) as [|[a b] rest]; [discriminate|].
      simpl. rewrite Him. simpl. simpl in L. repeat split. lia. }
    destruct F as (L' & I' & C').
    destruct (IH (after (timeout s)) W' T' L') as (E & T2 & I2 & C2).
    repeat split; [exact E|exact T2|congruence|congruence].
Qed.

(** X10.  The fade settles on the right image.  Open item [i] while no
    fade is pending, then navigate at will (buttons, arrow keys, swipes,
    closing, timers firing in between): once every pending 200ms timer has
    fired, the lightbox image has the source and the alt text of the item
    under the cursor. *)
Theorem fade_settles_on_cursor (i : nat) (es : list event) (s : state) :
  well_formed s ->
  timers s = [] ->
  (i < List.length (images s))%nat ->
  Forall (fun e => navigation e = true) es ->
  timers (run (repeat Timeout (List.length (timers (run (ItemClick i :: es) s))))
              (run (ItemClick i :: es) s)) = [] /\
  displayed (run (repeat Timeout
                    (List.length (timers (run (ItemClick i :: es) s))))
                 (run (ItemClick i :: es) s))
  = option_map item_view
      (js_index (images s) (currentIndex (run (ItemClick i :: es) s))).
Proof.
  intros W E Hi F.
  destruct (nth_error (images s) i) as [it|] eqn:Hit;
    [|apply nth_error_None in Hit; lia].
  destruct (opened_facts i it s W Hit) as (Him & Hc & _ & _ & _ & Ht & Hl).
  assert (W0 : well_formed (opened i s)) by (apply handle_wf, W).
  assert (T0 : tracks (opened i s)).
  { unfold tracks, pending_view, displayed.
    rewrite Ht, E, Hl, Him, Hc. simpl.
    destruct W as ([im ->] & _). simpl.
    unfold js_index. destruct (Z.ltb_spec (Z.of_nat i) 0); [lia|].
    now rewrite Nat2Z.id, Hit. }
  cbn [run]. fold (opened i s).
  destruct (run_tracks es (opened i s) F W0 T0) as [W1 T1].
  assert (I1 : images (run es (opened i s)) = images s).
  { rewrite <- Him. clear - F. revert F. generalize (opened i s).
    induction es as [|e es IH]; intros s0 F; [reflexivity|].
    inversion F as [|e' es' N F']; subst. simpl. rewrite IH by exact F'.
    clear - N. destruct e as [j|j key| | | |key|b|x|x|]; simpl in N;
      try discriminate; simpl handle.
    - destruct (lightboxClose s0); [|reflexivity].
      unfold closeLightbox. simpl. now destruct (js_index _ _).
    - destruct (lightboxPrev s0); [apply prevImage_images|reflexivity].
    - destruct (lightboxNext s0); [apply nextImage_images|reflexivity].
    - unfold onKeydown. destruct (negb (is_active s0)); [reflexivity|].
      destruct (String.eqb key "Escape").
      { unfold closeLightbox. simpl. now destruct (js_index _ _). }
      destruct (String.eqb key "ArrowRight"); [apply nextImage_images|].
      destruct (String.eqb key "ArrowLeft"); [apply prevImage_images|].
      reflexivity.
    - destruct b; [|reflexivity].
      unfold closeLightbox. simpl. now destruct (js_index _ _).
    - reflexivity.
    - unfold handleSwipe. destruct (_ <? _); [reflexivity|].
      destruct (_ >? _);
        [now rewrite nextImage_images|now rewrite prevImage_images].
    - unfold timeout. destruct (timers s0) as [|[a b] r]; [reflexivity|].
      simpl. now destruct (lightboxImage s0). }
  destruct (drain _ (run es (opened i s)) W1 T1 eq_refl) as (D & T2 & I2 & C2).
  split; [exact D|].
  unfold tracks, pending_view in T2. rewrite D in T2. simpl in T2.
  rewrite T2, I2, C2, I1. reflexivity.
Qed.

Lemma fade_settles_on_cursor_witness :
  displayed
    (run (repeat Timeout
            (List.length
               (timers (run [ItemClick 1; NextClick; Keydown "ArrowLeft";
                             Timeout; PrevClick] portfolio_state))))
         (run [ItemClick 1; NextClick; Keydown "ArrowLeft"; Timeout; PrevClick]
              portfolio_state))
  = Some ("1.jpg", "one").
Proof.
  apply (fade_settles_on_cursor 1
           [NextClick; Keydown "ArrowLeft"; Timeout; PrevClick]
           portfolio_state portfolio_well_formed eq_refl).
  - simpl. lia.
  - repeat constructor.
Defined.

(** The precondition on pending fades is needed: opening an item while a
    fade is pending lets the stale timer overwrite the opened image. *)
Example stale_fade_overwrites_open :
  currentIndex (run [ItemClick 0; NextClick; ItemClick 3; Timeout]
                    portfolio_state) = 3 /\
  displayed (run [ItemClick 0; NextClick; ItemClick 3; Timeout]
                 portfolio_state) = Some ("2.jpg", "two").
Proof. split; reflexivity. Qed.

End LightboxFade.

(** ** More on the gallery filters *)

Module FiltersReveal.
Import Filters FiltersProps.

(** Every pending 50ms timer fires, oldest first. *)
Definition flush (s : state) : state :=
  run (repeat Timeout (List.length (timers s))) s.

Definition marker_at (j : nat) (s : state) : option bool :=
  option_map (fun it => ClassList.contains "is-visible" (item_classes it))
             (nth_error (galleryItems s) j).

Definition display_at (j : nat) (s : state) : option string :=
  option_map display (nth_error (galleryItems s) j).

Definition reveal_all (ts : list nat) (its : list item) : list item :=
  fold_left (fun l i => update_at i reveal l) ts its.

Lemma flush_reveals bs ts : forall its,
  run (repeat Timeout (List.length ts))
      {| filterButtons := bs; galleryItems := its; timers := ts |}
  = {| filterButtons := bs; galleryItems := reveal_all ts its; timers := [] |}.
Proof.
  induction ts as [|i ts IH]; intros its; [reflexivity|].
  cbn [List.length repeat run handle]. unfold timeout. simpl. apply IH.
Qed.

Lemma reveal_all_marker j ts : forall its,
  option_map (fun it => ClassList.contains "is-visible" (item_classes it))
             (nth_error (reveal_all ts its) j)
  = option_map (fun it => ClassList.contains "is-visible" (item_classes it)
                          || existsb (Nat.eqb j) ts)
               (nth_error its j).
Proof.
  unfold reveal_all.
  induction ts as [|i ts IH]; intros its; simpl.
  - destruct (nth_error its j); simpl; [now rewrite orb_false_r|reflexivity].
  - rewrite IH. destruct (Nat.eqb_spec j i) as [->|D].
    + rewrite UpdateAt.nth_error_same.
      destruct (nth_error its i); simpl; [|reflexivity].
      now rewrite ClassList.contains_add, orb_true_r.
    + rewrite UpdateAt.nth_error_other by exact D. reflexivity.
Qed.

Lemma reveal_all_display j ts : forall its,
  option_map display (nth_error (reveal_all ts its) j)
  = option_map display (nth_error its j).
Proof.
  unfold reveal_all.
  induction ts as [|i ts IH]; intros its; simpl; [reflexivity|].
  rewrite IH. destruct (Nat.eq_dec j i) as [->|D].
  - rewrite UpdateAt.nth_error_same. now destruct (nth_error its i).
  - now rewrite UpdateAt.nth_error_other.
Qed.

(** A timer is set for item [j] exactly when item [j] is shown. *)
Lemma reveal_timers_mem flt j : forall its start,
  existsb (Nat.eqb j) (reveal_timers flt start its)
  = (start <=? j)%nat
    && match nth_error its (j - start) with
       | Some it => shown flt (data_category it)
       | None => false
       end.
Proof.
  induction its as [|it its IH]; intros start.
  - simpl. destruct (j - start)%nat; now rewrite andb_false_r.
  - cbn [reveal_timers].
    assert (R : existsb (Nat.eqb j) (reveal_timers flt (S start) its)
                = (S start <=? j)%nat
                  && match nth_error its (j - S start) with
                     | Some it => shown flt (data_category it)
                     | None => false
                     end) by apply IH.
    destruct (Nat.leb_spec start j) as [L|G].
    + destruct (Nat.eqb_spec j start) as [->|D].
      * rewrite Nat.sub_diag. cbn [nth_error andb].
        destruct (shown flt (data_category it)).
        -- cbn [existsb]. now rewrite Nat.eqb_refl.
        -- rewrite R. destruct (Nat.leb_spec (S start) start); [lia|].
           reflexivity.
      * replace (j - start)%nat with (S (j - S start)) by lia.
        cbn [nth_error andb].
        assert (E : existsb (Nat.eqb j) (reveal_timers flt (S start) its)
                    = match nth_error its (j - S start) with
                      | Some it => shown flt (data_category it)
                      | None => false
                      end).
        { rewrite R. destruct (Nat.leb_spec (S start) j); [reflexivity|lia]. }
        destruct (shown flt (data_category it)); [|exact E].
        cbn [existsb]. destruct (Nat.eqb_spec j start); [lia|exact E].
    + cbn [andb].
      assert (E : existsb (Nat.eqb j) (reveal_timers flt (S start) its) = false).
      { rewrite R. destruct (Nat.leb_spec (S start) j); [lia|reflexivity]. }
      destruct (shown flt (data_category it)); [|exact E].
      cbn [existsb]. destruct (Nat.eqb_spec j start); [lia|exact E].
Qed.

(** X11.  When no reveal is pending at the time of the click, the
    [is-visible] marker ends up in step with the filter: after a click on
    control [k] and the firing of the timers it set, an item carries
    [is-visible] exactly when it is shown, whatever it carried before, and
    no timer is left. *)
Theorem markers_follow_filter (k j : nat) (it : item) (s : state) :
  timers s = [] ->
  (k < List.length (filterButtons s))%nat ->
  nth_error (galleryItems s) j = Some it ->
  timers (flush (click k s)) = [] /\
  marker_at j (flush (click k s))
  = Some (shown (filter_of k s) (data_category it)) /\
  display_at j (flush (click k s))
  = Some (if shown (filter_of k s) (data_category it) then "" else "none").
Proof.
  intros T Hk Hj. unfold flush, click, filter_of.
  destruct (nth_error (filterButtons s) k) as [b|] eqn:E;
    [|apply nth_error_None in E; lia].
  cbn [timers]. rewrite T. cbn [app].
  rewrite flush_reveals. unfold marker_at, display_at. cbn [timers galleryItems].
  split; [reflexivity|].
  rewrite reveal_all_marker, reveal_all_display.
  rewrite !nth_error_map, Hj. cbn [option_map].
  rewrite reveal_timers_mem. rewrite Nat.sub_0_r, Hj. cbn [Nat.leb andb].
  unfold filter_item.
  destruct (shown (data_filter b) (data_category it));
    cbn [item_classes display].
  - now rewrite orb_true_r.
  - now rewrite ClassList.contains_remove.
Qed.

Lemma markers_follow_filter_witness :
  marker_at 1 (flush (click 1 gallery)) = Some false /\
  display_at 1 (flush (click 1 gallery)) = Some "none".
Proof.
  destruct (markers_follow_filter 1 1 (tile "landscape") gallery eq_refl)
    as (_ & M & D); [simpl; lia|reflexivity|].
  split; [exact M|exact D].
Defined.

Lemma shown_all c : shown (Some "all") c = true.
Proof. reflexivity. Qed.

Lemma shown_undefined c :
  shown None c = match c with None => true | Some _ => false end.
Proof. now destruct c. Qed.

(** X12.  The two special filter values.  A control whose [data-filter] is
    'all' displays every item.  A control without a [data-filter]
    attribute compares [undefined] with each category, so it displays
    exactly the items that have no [data-category] attribute. *)
Theorem special_filters (k : nat) (s : state) :
  (k < List.length (filterButtons s))%nat ->
  (filter_of k s = Some "all" ->
   displays (click k s) = map (fun _ => "") (galleryItems s)) /\
  (filter_of k s = None ->
   displays (click k s)
   = map (fun it => match data_category it with
                    | None => ""
                    | Some _ => "none"
                    end) (galleryItems s)).
Proof.
  intros Hk. rewrite click_displays by exact Hk. unfold expected_displays.
  split; intros ->; apply map_ext; intros it.
  - reflexivity.
  - rewrite shown_undefined. now destruct (data_category it).
Qed.

Lemma special_filters_witness :
  displays (click 0 (click 2 gallery)) = [""; ""; ""].
Proof.
  assert (K : (0 < List.length (filterButtons (click 2 gallery)))%nat)
    by (simpl; lia).
  destruct (special_filters 0 (click 2 gallery) K) as [A _].
  exact (A eq_refl).
Defined.

(** *** The whole state after a history *)

(** Item [j] carries [is-visible] or has a reveal timer pending. *)
Definition marked_or_pending (j : nat) (s : state) : Prop :=
  marker_at j s = Some true \/ In j (timers s).

Lemma items_length_markup s s0 :
  markup s = markup s0 ->
  List.length (galleryItems s) = List.length (galleryItems s0).
Proof.
  unfold markup. intros H. injection H as _ Hi.
  apply (f_equal (@List.length _)) in Hi. now rewrite !length_map in Hi.
Qed.

Lemma category_markup j it s s0 :
  markup s = markup s0 ->
  nth_error (galleryItems s0) j = Some it ->
  exists it', nth_error (galleryItems s) j = Some it' /\
              data_category it' = data_category it.
Proof.
  unfold markup. intros H Hj. injection H as _ Hi.
  apply (f_equal (fun l => nth_error l j)) in Hi.
  rewrite !nth_error_map, Hj in Hi.
  destruct (nth_error (galleryItems s) j) as [it'|]; [|discriminate].
  exists it'. split; [reflexivity|]. simpl in Hi. congruence.
Qed.

Lemma timeout_marked_or_pending j s :
  (j < List.length (galleryItems s))%nat ->
  marked_or_pending j s -> marked_or_pending j (timeout s).
Proof.
  intros Hj P. unfold timeout.
  destruct (timers s) as [|i rest] eqn:E; [exact P|].
  unfold marked_or_pending, marker_at in *. cbn [galleryItems timers].
  destruct (nth_error (galleryItems s) j) as [it|] eqn:N;
    [|apply nth_error_None in N; lia].
  destruct (Nat.eq_dec j i) as [<-|D].
  - left. rewrite UpdateAt.nth_error_same, N. simpl.
    now rewrite ClassList.contains_add.
  - rewrite UpdateAt.nth_error_other by exact D. rewrite N.
    destruct P as [P|P]; [now left|]. rewrite E in P.
    destruct P as [P|P]; [congruence|now right].
Qed.

Lemma click_sets_timer k j b it s :
  nth_error (filterButtons s) k = Some b ->
  nth_error (galleryItems s) j = Some it ->
  shown (data_filter b) (data_category it) = true ->
  marked_or_pending j (click k s).
Proof.
  intros Hb Hj Hs. right. unfold click. rewrite Hb. cbn [timers].
  apply in_or_app. right.
  assert (M : existsb (Nat.eqb j)
                (reveal_timers (data_filter b) 0 (galleryItems s)) = true).
  { rewrite reveal_timers_mem, Nat.sub_0_r, Hj. exact Hs. }
  apply existsb_exists in M. destruct M as [x [Hx Hxe]].
  apply Nat.eqb_eq in Hxe. now subst x.
Qed.

Lemma timeouts_marked_or_pending j es : forall s,
  last_click es = None ->
  (j < List.length (galleryItems s))%nat ->
  marked_or_pending j s -> marked_or_pending j (run es s).
Proof.
  induction es as [|e es IH]; intros s L Hj P; [exact P|].
  simpl in L. destruct (last_click es) eqn:Les; [discriminate|].
  destruct e as [k|]; [discriminate|]. simpl.
  apply IH; [reflexivity| |now apply timeout_marked_or_pending].
  now rewrite (items_length_markup _ s (timeout_markup s)).
Qed.

Lemma history_marked_or_pending j k it s0 es : forall s,
  markup s = markup s0 ->
  last_click es = Some k ->
  (k < List.length (filterButtons s0))%nat ->
  nth_error (galleryItems s0) j = Some it ->
  shown (filter_of k s0) (data_category it) = true ->
  marked_or_pending j (run es s).
Proof.
  induction es as [|e es IH]; intros s M L Hk Hj Hs; [discriminate|].
  simpl in L. cbn [run].
  assert (M' : markup (handle e s) = markup s0) by now rewrite handle_markup.
  destruct (last_click es) as [k'|] eqn:Les.
  - injection L as ->. now apply IH.
  - destruct e as [k'|]; [|discriminate]. injection L as ->. cbn [handle].
    destruct (category_markup j it s s0 M Hj) as [it' [Hj' Hc]].
    assert (Hk' : (k < List.length (filterButtons s))%nat)
      by now rewrite (markup_length s s0 M).
    destruct (nth_error (filterButtons s) k) as [b|] eqn:Hb;
      [|apply nth_error_None in Hb; lia].
    apply timeouts_marked_or_pending; [exact Les| |].
    + rewrite (items_length_markup _ s (click_markup k s)).
      apply nth_error_Some. congruence.
    + apply (click_sets_timer k j b it'); [exact Hb|exact Hj'|].
      rewrite Hc. rewrite <- (filter_of_markup k s s0 M) in Hs.
      unfold filter_of in Hs. now rewrite Hb in Hs.
Qed.

Lemma flush_marks j s :
  (j < List.length (galleryItems s))%nat ->
  marked_or_pending j s -> marker_at j (flush s) = Some true.
Proof.
  intros Hj P. destruct s as [bs its ts]. unfold flush. cbn [timers].
  rewrite flush_reveals. unfold marked_or_pending, marker_at in *.
  cbn [galleryItems timers] in *. rewrite reveal_all_marker.
  destruct (nth_error its j) as [it|] eqn:N;
    [|apply nth_error_None in N; lia].
  simpl. f_equal. destruct P as [P|P].
  - simpl in P. injection P as ->. reflexivity.
  - apply orb_true_iff. right. apply existsb_exists.
    exists j. split; [exact P|apply Nat.eqb_refl].
Qed.

Lemma last_click_timeouts n : last_click (repeat Timeout n) = None.
Proof. induction n as [|n IH]; simpl; [reflexivity|now rewrite IH]. Qed.

Lemma flush_view s :
  active_flags (flush s) = active_flags s /\ displays (flush s) = displays s.
Proof.
  unfold flush.
  pose proof (run_view (repeat Timeout (List.length (timers s))) s s eq_refl)
    as V.
  now rewrite last_click_timeouts in V.
Qed.

(** C5, as the code has it.  After a history of filter clicks (and of
    reveal timers firing in between) whose last click was on control [k]:
    exactly one control carries [is-active], control [k]; every item's
    [style.display] is '' when [filter === 'all' || category === filter]
    for the filter of control [k] and 'none' otherwise; active markers and
    displays are those a single click on [k] gives, and a further click on
    [k] changes neither; and once the pending timers have fired every
    displayed item carries [is-visible].  Nothing is said of the
    [is-visible] marker of a hidden item. *)
Theorem filter_state_after_history (es : list event) (s : state) (k : nat) :
  last_click es = Some k ->
  (k < List.length (filterButtons s))%nat ->
  active_flags (run es s) = expected_flags k s /\
  count_occ Bool.bool_dec (active_flags (run es s)) true = 1%nat /\
  displays (run es s) = expected_displays k s /\
  active_flags (run es s) = active_flags (click k s) /\
  displays (run es s) = displays (click k s) /\
  active_flags (click k (run es s)) = active_flags (run es s) /\
  displays (click k (run es s)) = displays (run es s) /\
  active_flags (flush (run es s)) = active_flags (run es s) /\
  displays (flush (run es s)) = displays (run es s) /\
  (forall j it,
      nth_error (galleryItems s) j = Some it ->
      shown (filter_of k s) (data_category it) = true ->
      marker_at j (flush (run es s)) = Some true).
Proof.
  intros L Hk.
  destruct (filter_last_click_decides es s k L Hk)
    as (F & C & D & F1 & D1 & F2 & D2).
  destruct (flush_view (run es s)) as [Ff Fd].
  repeat split; try assumption.
  intros j it Hj Hs. apply flush_marks.
  - rewrite (items_length_markup _ s (run_markup es s)).
    apply nth_error_Some. congruence.
  - now apply (history_marked_or_pending j k it s es s eq_refl).
Qed.

Lemma filter_state_after_history_witness :
  active_flags (run [Click 2; Click 0; Timeout; Click 1] gallery)
    = [false; true; false] /\
  displays (run [Click 2; Click 0; Timeout; Click 1] gallery)
    = [""; "none"; ""] /\
  marker_at 2 (flush (run [Click 2; Click 0; Timeout; Click 1] gallery))
    = Some true.
Proof.
  assert (L : last_click [Click 2; Click 0; Timeout; Click 1] = Some 1%nat)
    by reflexivity.
  assert (K : (1 < List.length (filterButtons gallery))%nat)
    by (simpl; lia).
  destruct (filter_state_after_history _ gallery 1 L K)
    as (F & _ & D & _ & _ & _ & _ & _ & _ & M).
  split; [exact F|]. split; [exact D|].
  apply (M 2%nat (tile "portrait")); reflexivity.
Defined.

(** C5 as stated fails on the whole state.  Two histories of the sample
    gallery end with the same click, on 'portrait', and have no timer
    left; after the first the hidden landscape item carries [is-visible],
    after the second it does not. *)
Lemma same_last_click_different_markers :
  last_click [Click 0; Click 1; Timeout; Timeout; Timeout; Timeout; Timeout]
    = Some 1%nat /\
  last_click [Click 1; Timeout; Timeout] = Some 1%nat /\
  timers (run [Click 0; Click 1; Timeout; Timeout; Timeout; Timeout; Timeout]
              gallery) = [] /\
  timers (run [Click 1; Timeout; Timeout] gallery) = [] /\
  marker_at 1 (run [Click 0; Click 1; Timeout; Timeout; Timeout; Timeout;
                    Timeout] gallery) = Some true /\
  marker_at 1 (run [Click 1; Timeout; Timeout] gallery) = Some false /\
  run [Click 0; Click 1; Timeout; Timeout; Timeout; Timeout; Timeout] gallery
  <> run [Click 1; Timeout; Timeout] gallery.
Proof.
  repeat split; try reflexivity. intros E.
  apply (f_equal (marker_at 1)) in E. discriminate.
Qed.

End FiltersReveal.

(** ** More on the anchor links *)

Module SmoothScrollProps.
Import SmoothScroll.



End SmoothScrollProps.

(** ** More on the header *)

Module HeaderScrollProps.
Import HeaderScroll.

Definition run (es : list event) (s : state) : state :=
  fold_left (fun s e => handle e s) es s.

(** At most one animation frame is requested at a time, and [ticking]
    says whether one is. *)
Definition coalesced (s : state) : Prop :=
  frames s = if ticking s then 1%nat else 0%nat.

Lemma updateHeader_frame y s :
  ticking (updateHeader y s) = ticking s /\
  frames (updateHeader y s) = frames s.
Proof. unfold updateHeader. now destruct (js_gt y scrollThreshold). Qed.

Lemma handle_coalesced e s : coalesced s -> coalesced (handle e s).
Proof.
  unfold coalesced. intros C. destruct e as [|y]; simpl.
  - destruct (ticking s) eqn:T; [now rewrite T|]. simpl. now rewrite C.
  - destruct (frames s) as [|n] eqn:F; [now rewrite F|]. simpl.
    destruct (ticking s); [congruence|discriminate].
Qed.

Lemma run_coalesced es : forall s, coalesced s -> coalesced (run es s).
Proof.
  unfold run. induction es as [|e es IH]; intros s C; [exact C|].
  simpl. apply IH, handle_coalesced, C.
Qed.

Lemma header_run_app es1 es2 s : run (es1 ++ es2) s = run es2 (run es1 s).
Proof. unfold run. apply fold_left_app. Qed.

(** X15.  Scroll events are coalesced.  After initialisation and any
    number of scroll events and animation frames, at most one frame
    callback is pending, and one is pending exactly while [ticking] is
    set; a further scroll event followed by a frame at offset [y] leaves
    the marker on iff [y > 50], with no frame pending. *)
Theorem scroll_events_coalesced
  (c : ClassList.t) (y0 y : Q) (es : list event) (s0 : state) :
  initHeaderScroll (Some c) y0 = Some s0 ->
  (frames (run es s0) <= 1)%nat /\
  (ticking (run es s0) = true <-> frames (run es s0) = 1%nat) /\
  (is_scrolled (run (es ++ [Scroll; Frame y]) s0) = true <-> (50 < y)%Q) /\
  frames (run (es ++ [Scroll; Frame y]) s0) = 0%nat /\
  ticking (run (es ++ [Scroll; Frame y]) s0) = false.
Proof.
  intros I. simpl in I. injection I as <-.
  assert (C0 : coalesced (updateHeader y0
                            {| header_classes := c; ticking := false;
                               frames := 0 |})).
  { unfold coalesced. destruct (updateHeader_frame y0
                                  {| header_classes := c; ticking := false;
                                     frames := 0 |}) as [-> ->].
    reflexivity. }
  pose proof (run_coalesced es _ C0) as C. unfold coalesced in C.
  set (s := run es _) in *.
  split; [destruct (ticking s); lia|].
  split; [destruct (ticking s); rewrite C; split; congruence|].
  rewrite header_run_app. fold s. unfold run. cbn [fold_left].
  assert (F : frames (handle Scroll s) = 1%nat).
  { simpl. destruct (ticking s) eqn:T; [exact C|]. simpl. now rewrite C. }
  cbn [handle] in *. rewrite F. cbn.
  split; [|now split].
  change (is_scrolled (updateHeader y (if ticking s then s
            else {| header_classes := header_classes s; ticking := true;
                    frames := S (frames s) |})) = true <-> (50 < y)%Q).
  rewrite updateHeader_is_scrolled. apply js_gt_spec.
Qed.

Lemma scroll_events_coalesced_witness :
  (frames (run [Scroll; Scroll; Scroll; Frame 120%Q; Scroll]
               (updateHeader 0%Q {| header_classes := ["header"];
                                    ticking := false; frames := 0 |}))
   <= 1)%nat.
Proof.
  destruct (scroll_events_coalesced ["header"] 0%Q 0%Q
              [Scroll; Scroll; Scroll; Frame 120%Q; Scroll]
              (updateHeader 0%Q {| header_classes := ["header"];
                                   ticking := false; frames := 0 |})
              eq_refl) as [L _].
  exact L.
Defined.

End HeaderScrollProps.

(** ** More on image loading *)

Module ImageLoadingProps.
Import ImageLoading.

Definition run (es : list event) (s : state) : state :=
  fold_left (fun s e => handle e s) es s.

Lemma mark_at_loaded k j l :
  match nth_error l j with
  | Some i => ClassList.contains "is-loaded" (img_classes i) = true
  | None => False
  end ->
  match nth_error (update_at k mark_loaded l) j with
  | Some i => ClassList.contains "is-loaded" (img_classes i) = true
  | None => False
  end.
Proof.
  intros H. destruct (Nat.eq_dec j k) as [->|D].
  - rewrite nth_error_update_at. destruct (nth_error l k); [|exact H].
    simpl. apply ClassList.contains_add.
  - now rewrite nth_error_update_at_other.
Qed.

Lemma is_loaded_spec k s :
  is_loaded k s = true <->
  match nth_error (lazyImages s) k with
  | Some i => ClassList.contains "is-loaded" (img_classes i) = true
  | None => False
  end.
Proof.
  unfold is_loaded, classes_at.
  destruct (nth_error (lazyImages s) k); simpl; [tauto|].
  split; [discriminate|tauto].
Qed.

Lemma handle_keeps_loaded e k s :
  is_loaded k s = true -> is_loaded k (handle e s) = true.
Proof.
  rewrite !is_loaded_spec. intros H. destruct e as [n|n]; simpl.
  - destruct (nth_error (lazyImages s) n) as [i|]; [|exact H].
    destruct (on_load i); [|exact H]. simpl. now apply mark_at_loaded.
  - destruct (nth_error (lazyImages s) n) as [i|]; [|exact H].
    destruct (on_error i); [|exact H]. simpl. now apply mark_at_loaded.
Qed.

Lemma init_keeps_loaded k s :
  is_loaded k s = true -> is_loaded k (initImageLoading s) = true.
Proof.
  rewrite !is_loaded_spec. intros H.
  destruct (nth_error (lazyImages s) k) as [i|] eqn:E; [|contradiction].
  rewrite (init_nth k s i E). unfold init_img.
  destruct (already_loaded i); simpl; [apply ClassList.contains_add|exact H].
Qed.

(** X16.  The marker is never taken back: an image that carries
    [is-loaded] still carries it after initialisation and after every
    later [load] or [error] event, on itself or on another image. *)
Theorem loaded_marker_stays (es : list event) (s : state) (k : nat) :
  is_loaded k s = true ->
  is_loaded k (run es (initImageLoading s)) = true.
Proof.
  intros H. apply init_keeps_loaded in H. revert H.
  generalize (initImageLoading s). unfold run.
  induction es as [|e es IH]; intros s0 H; [exact H|].
  simpl. apply IH, handle_keeps_loaded, H.
Qed.

(** An image whose marker is already in the markup. *)
Definition premarked : state :=
  {| lazyImages := [{| complete := false; naturalHeight := 0%N;
                       img_src := "c.jpg"; img_classes := ["is-loaded"];
                       on_load := false; on_error := false |}];
     console := [] |}.

Lemma loaded_marker_stays_witness :
  is_loaded 0 (run [Error 0; Load 0] (initImageLoading premarked)) = true.
Proof.
  apply (loaded_marker_stays [Error 0; Load 0] premarked 0). reflexivity.
Defined.

(** X17.  An image found complete at initialisation gets no listener: a
    later [load] or [error] event on it changes nothing, and in particular
    writes no warning. *)
Theorem cached_image_ignores_events (s : state) (k : nat) (i : img) :
  nth_error (lazyImages s) k = Some i ->
  already_loaded i = true ->
  on_load i = false ->
  on_error i = false ->
  handle (Load k) (initImageLoading s) = initImageLoading s /\
  handle (Error k) (initImageLoading s) = initImageLoading s.
Proof.
  intros H A L E. pose proof (init_nth k s i H) as I.
  unfold init_img in I. rewrite A in I.
  simpl. rewrite I. simpl. rewrite L, E. now split.
Qed.

Lemma cached_image_ignores_events_witness :
  console (handle (Error 0) (initImageLoading two_images)) = [].
Proof.
  destruct (cached_image_ignores_events two_images 0 cached
              eq_refl eq_refl eq_refl eq_refl) as [_ E].
  rewrite E. reflexivity.
Defined.

(** Every [error] event writes at most one warning, and [load] events
    write none. *)
Definition errors (es : list event) : nat :=
  List.length (filter (fun e => match e with Error _ => true | Load _ => false end) es).

Lemma handle_console e s :
  (List.length (console (handle e s))
   <= List.length (console s)
      + match e with Error _ => 1 | Load _ => 0 end)%nat /\
  exists w, console (handle e s) = console s ++ w.
Proof.
  destruct e as [n|n]; simpl.
  - destruct (nth_error (lazyImages s) n) as [i|];
      [destruct (on_load i)|]; simpl;
      (split; [lia|exists []; now rewrite app_nil_r]).
  - destruct (nth_error (lazyImages s) n) as [i|];
      [destruct (on_error i)|]; simpl;
      try (split; [lia|exists []; now rewrite app_nil_r]).
    split; [rewrite length_app; simpl; lia|eauto].
Qed.

(** X18.  The console only grows, and only through failures: after any
    history of events, what was on the console is still its prefix, and
    the number of lines added is at most the number of [error] events. *)
Theorem warnings_bounded_by_errors (es : list event) (s : state) :
  (exists w, console (run es s) = console s ++ w) /\
  (List.length (console (run es s))
   <= List.length (console s) + errors es)%nat.
Proof.
  unfold run, errors. revert s.
  induction es as [|e es IH]; intros s; simpl.
  - split; [exists []; now rewrite app_nil_r|lia].
  - destruct (IH (handle e s)) as [[w Hw] Hl].
    destruct (handle_console e s) as [Hl' [w' Hw']].
    split.
    + exists (w' ++ w). now rewrite Hw, Hw', app_assoc.
    + destruct e; simpl in *; lia.
Qed.

(** *** Images that failed before initialisation *)

Definition target (e : event) : nat :=
  match e with Load k => k | Error k => k end.

(** The browser fires [load] or [error] on an image once, when its request
    ends.  An image whose [complete] is already true when
    [initImageLoading] runs has had its event; the events that can still
    be delivered are those of the images not yet complete. *)
Definition deliverable (s : state) (es : list event) : bool :=
  forallb (fun e => match nth_error (lazyImages s) (target e) with
                    | Some i => negb (complete i)
                    | None => true
                    end) es.

Lemma run_other k es : forall s,
  Forall (fun e => target e <> k) es ->
  classes_at k (run es s) = classes_at k s.
Proof.
  unfold run. induction es as [|e es IH]; intros s F; [reflexivity|].
  inversion F as [|e' es' D F']; subst. simpl. rewrite IH by exact F'.
  apply (handle_other e (target e) k); [destruct e; reflexivity|congruence].
Qed.

Lemma deliverable_other s k i es :
  nth_error (lazyImages s) k = Some i ->
  complete i = true ->
  deliverable s es = true ->
  Forall (fun e => target e <> k) es.
Proof.
  intros H C D. unfold deliverable in D. rewrite forallb_forall in D.
  apply Forall_forall. intros e He Et. specialize (D e He).
  rewrite Et, H, C in D. discriminate.
Qed.

(** An image that is complete with natural height zero when
    [initImageLoading] runs is not marked there, and no event that can
    still be delivered marks it. *)
Lemma failed_before_init_never_marked s k i es :
  nth_error (lazyImages s) k = Some i ->
  complete i = true ->
  naturalHeight i = 0%N ->
  ClassList.contains "is-loaded" (img_classes i) = false ->
  deliverable s es = true ->
  is_loaded k (run es (initImageLoading s)) = false.
Proof.
  intros H C N M D.
  pose proof (deliverable_other s k i es H C D) as F.
  unfold is_loaded. rewrite (run_other k es _ F).
  unfold classes_at. rewrite (init_nth k s i H).
  unfold init_img, already_loaded. rewrite C, N. simpl. exact M.
Qed.

(** A lazy image whose request failed before the script ran, beside one
    that is still loading. *)
Definition broken : img :=
  {| complete := true; naturalHeight := 0%N; img_src := "missing.jpg";
     img_classes := []; on_load := false; on_error := false |}.

Definition broken_page : state :=
  {| lazyImages := [broken; pending]; console := [] |}.

(** C9, at the failing input.  The first image is complete with natural
    height zero at initialisation: line 402 does not mark it, the
    listeners are added after its [error] event has gone, and whatever
    events follow on the page it never carries [is-loaded]. *)
Theorem broken_image_never_marked (es : list event) :
  deliverable broken_page es = true ->
  is_loaded 0 (initImageLoading broken_page) = false /\
  is_loaded 0 (run es (initImageLoading broken_page)) = false.
Proof.
  intros D. split; [reflexivity|].
  now apply (failed_before_init_never_marked broken_page 0 broken es).
Qed.

Lemma broken_image_never_marked_witness :
  is_loaded 0 (run [Error 1; Load 1] (initImageLoading broken_page)) = false /\
  is_loaded 1 (run [Error 1; Load 1] (initImageLoading broken_page)) = true.
Proof.
  split; [|reflexivity].
  apply (broken_image_never_marked [Error 1; Load 1]). reflexivity.
Defined.

End ImageLoadingProps.
